(** * embd: GPIO pin arbitration and the HD44780-over-MCP23017 character LCD driver

    A shallow embedding of two parts of the repository:

    - package [embd] (pin registry and GPIO driver): [PinMap.Lookup],
      [gpioDriver.digitalPin], [gpioDriver.Close];
    - package [adafruit_charlcd] (the LCD controller and its I2C connection).

    Go values are modelled as follows.  An [int] is a [Z] (only compared and
    masked, never overflowed); a [byte] is a [Z] in [0, 256) with the
    wrap-around of every operation written out; a slice is a [list]; the Go map
    [map[int]pin] is a [gmap Z pin]; an [error] is an [option] ([None] is
    [nil]).  Calls into collaborators that live outside the modelled code (the
    I2C bus, a pin's [Close], [time.Sleep], the [glog.Infof] notice of the
    GPIO driver) are recorded in an event log that is threaded through every
    operation; what such a call returns is given by an oracle that sees the
    log so far.  The verbose [glog.V] lines of the LCD package have no effect
    on its results and are left out. *)

From Stdlib Require Import ZArith Lia.
From stdpp Require Import base gmap strings list.

Local Open Scope Z_scope.

(* ===================================================================== *)
(** ** Package embd: pin registry and GPIO driver                         *)
(* ===================================================================== *)

Module Embd.

(** [CapNormal int = 1 << iota] and the constants that follow it. *)
Definition CapNormal : Z := Z.shiftl 1 0.
Definition CapI2C : Z := Z.shiftl 1 1.
Definition CapUART : Z := Z.shiftl 1 2.
Definition CapSPI : Z := Z.shiftl 1 3.
Definition CapGPMC : Z := Z.shiftl 1 4.
Definition CapLCD : Z := Z.shiftl 1 5.
Definition CapPWM : Z := Z.shiftl 1 6.

Record PinDesc := mkPinDesc {
  N : Z;
  IDs : list string;
  Caps : Z
}.

(** [type PinMap], a slice of pointers to [PinDesc].  The descriptors are
    never written after the table is built, so a pointer to one is modelled
    by its value. *)
Definition PinMap := list PinDesc.

(** The dynamic value behind the [interface{}] key of [Lookup]: an [int], a
    [string], or a value of some other dynamic type (named by [dyn]). *)
Inductive Key :=
| KeyInt (n : Z)
| KeyString (s : string)
| KeyOther (dyn : string).

(** [for i := range m { if m[i].N == key { return m[i], true } }] *)
Fixpoint lookupInt (m : PinMap) (key : Z) : option PinDesc :=
  match m with
  | [] => None
  | pd :: rest => if Z.eqb (N pd) key then Some pd else lookupInt rest key
  end.

(** [for j := range m[i].IDs { if m[i].IDs[j] == key { ... } }]: does the
    inner loop reach its [return]? *)
Fixpoint idsMatch (ids : list string) (key : string) : bool :=
  match ids with
  | [] => false
  | id :: rest => if String.eqb id key then true else idsMatch rest key
  end.

Fixpoint lookupString (m : PinMap) (key : string) : option PinDesc :=
  match m with
  | [] => None
  | pd :: rest => if idsMatch (IDs pd) key then Some pd else lookupString rest key
  end.

(** [func (m PinMap) Lookup(k interface{})], returning a descriptor pointer
    and a found flag; [nil, false] is [None]. *)
Definition Lookup (m : PinMap) (k : Key) : option PinDesc :=
  match k with
  | KeyInt key => lookupInt m key
  | KeyString key => lookupString m key
  | KeyOther _ => None
  end.

(** Modelled from the spec: the type [digitalPin], whose declaration is in
    another file of the package.  A handle is a pointer; [dp_ref] is the
    identity of the allocation and [dp_n] the physical pin it drives. *)
Record digitalPin := mkDigitalPin {
  dp_ref : nat;
  dp_n : Z
}.

(** [type pin interface { Close() error }]: the value stored per pin is a
    handle of one concrete kind, either a pointer to a [digitalPin] or a
    handle of some other kind. *)
Inductive pin :=
| PinDigital (dp : digitalPin)
| PinOther (kind : string) (ref : nat).

Inductive error :=
| ErrNotFound (key : Key)          (* "gpio: could not find pin matching %q" *)
| ErrModeConflict (key : Key)      (* "... is already initialized for a different mode" *)
| ErrUnsupportedMode (key : Key)   (* "... cannot be used for digital io" *)
| ErrIO (msg : string).            (* an error of the pin transport *)

(** What the driver does to the outside world, in order. *)
Inductive Event :=
| EvInfo (key : Key)               (* glog.Infof: not a dedicated digital io pin *)
| EvOpen (n : Z)                   (* a digital-pin handle is constructed for pin n *)
| EvClose (p : pin).               (* p.Close() *)

Definition World := list Event.

Record gpioDriver := mkGpioDriver {
  pinMap : PinMap;
  initializedPins : gmap Z pin
}.

Definition newGPIODriver (pm : PinMap) : gpioDriver :=
  {| pinMap := pm; initializedPins := ∅ |}.

Definition lookupKey (io : gpioDriver) (key : Key) : option PinDesc :=
  Lookup (pinMap io) key.

(** Modelled from the spec: [newDigitalPin], whose body is in another file of
    the package.  It constructs the handle of pin [n], "delegating physical
    setup to the external digital-pin transport"; that is the one place a pin
    is opened, logged as [EvOpen n].  The new handle is a fresh allocation. *)
Definition newDigitalPin (n : Z) (w : World) : World * digitalPin :=
  (w ++ [EvOpen n], {| dp_ref := length w; dp_n := n |}).

(** [func (io *gpioDriver) digitalPin(key interface{})], returning a handle
    pointer or an error.
    Returns the driver after the call, the log after the call, and the
    result. *)
Definition gpioDriver_digitalPin (io : gpioDriver) (key : Key) (w : World)
  : gpioDriver * World * (digitalPin + error) :=
  match lookupKey io key with
  | None => (io, w, inr (ErrNotFound key))
  | Some pd =>
    let n := N pd in
    match initializedPins io !! n with
    | Some p =>
      match p with
      | PinDigital dp => (io, w, inl dp)
      | PinOther _ _ => (io, w, inr (ErrModeConflict key))
      end
    | None =>
      if Z.eqb (Z.land (Caps pd) CapNormal) 0 then
        (io, w, inr (ErrUnsupportedMode key))
      else
        let w1 := if Z.eqb (Caps pd) CapNormal then w else w ++ [EvInfo key] in
        let '(w2, dp) := newDigitalPin n w1 in
        ({| pinMap := pinMap io;
            initializedPins := <[n := PinDigital dp]> (initializedPins io) |},
         w2, inl dp)
    end
  end.

(** [func (io *gpioDriver) DigitalPin(key interface{}) (DigitalPin, error)] *)
Definition DigitalPin (io : gpioDriver) (key : Key) (w : World) :=
  gpioDriver_digitalPin io key w.

Section Close.

(** What [p.Close()] returns, given the log before the call. *)
Variable pinClose : World -> pin -> option error.

(** The body of [for _, p := range io.initializedPins], on the handles still
    to be visited. *)
Fixpoint closeLoop (ps : list pin) (w : World) : World * option error :=
  match ps with
  | [] => (w, None)
  | p :: rest =>
    match pinClose w p with
    | Some err => (w ++ [EvClose p], Some err)
    | None => closeLoop rest (w ++ [EvClose p])
    end
  end.

(** [func (io *gpioDriver) Close() error].  Go leaves the iteration order of a
    map unspecified: [order] is the order the runtime picks for this call, a
    permutation of the entries of the map. *)
Definition Close (order : list (Z * pin)) (io : gpioDriver) (w : World)
  : gpioDriver * World * option error :=
  let '(w', r) := closeLoop (order.*2) w in (io, w', r).

End Close.

(** *** Vocabulary of the statements *)

(** The descriptor [pd] answers the key [k]: its number is the [int] key, or
    one of its aliases is the [string] key. *)
Definition keyMatches (k : Key) (pd : PinDesc) : Prop :=
  match k with
  | KeyInt n => N pd = n
  | KeyString s => s ∈ IDs pd
  | KeyOther _ => False
  end.

(** The pins opened in a log, in order. *)
Definition opens (w : World) : list Z :=
  omap (λ ev, match ev with EvOpen n => Some n | _ => None end) w.

(** The log entries of closing the handles [ps] one after the other. *)
Definition closeEvents (ps : list pin) : World := EvClose <$> ps.

(** Every close of [ps], performed in order from the log [w], succeeds. *)
Fixpoint allCloseOk (pinClose : World → pin → option error)
    (w : World) (ps : list pin) : Prop :=
  match ps with
  | [] => True
  | p :: rest => pinClose w p = None ∧ allCloseOk pinClose (w ++ [EvClose p]) rest
  end.

(** A caller that acquires the keys one after the other: the driver and the
    log are handed from each [digitalPin] call to the next, the results are
    collected in order. *)
Fixpoint acquireAll (keys : list Key) (io : gpioDriver) (w : World)
  : gpioDriver * World * list (digitalPin + error) :=
  match keys with
  | [] => (io, w, [])
  | key :: rest =>
    let '(io1, w1, r) := gpioDriver_digitalPin io key w in
    let '(io2, w2, rs) := acquireAll rest io1 w1 in
    (io2, w2, r :: rs)
  end.

(** The handles the map holds are digital-pin handles, and the pins opened in
    the log are, without repetition, the pins the map holds. *)
Definition opensMatchMap (io : gpioDriver) (w : World) : Prop :=
  (∀ n p, initializedPins io !! n = Some p → ∃ dp, p = PinDigital dp)
  ∧ NoDup (opens w)
  ∧ (∀ n, n ∈ opens w ↔ is_Some (initializedPins io !! n)).

(** *** Sample data, used to run the statements on concrete inputs *)

Definition sampleBoard : PinMap :=
  [ {| N := 10; IDs := ["P8_31"; "GPIO_10"]; Caps := Z.lor CapNormal CapUART |};
    {| N := 3; IDs := ["I2C1_SDA"]; Caps := CapI2C |};
    {| N := 7; IDs := ["AIN0"]; Caps := CapNormal |} ].

(** A driver on [sampleBoard] whose pin 7 is held by a handle of another kind. *)
Definition sampleDriver : gpioDriver :=
  {| pinMap := sampleBoard;
     initializedPins := {[ 7 := PinOther "analogPin" 0 ]} |}.

Definition samplePinA : pin := PinDigital {| dp_ref := 0; dp_n := 10 |}.
Definition samplePinB : pin := PinDigital {| dp_ref := 1; dp_n := 7 |}.

(** A driver holding two digital pins. *)
Definition sampleHolder : gpioDriver :=
  {| pinMap := sampleBoard;
     initializedPins := <[ 10 := samplePinA ]> {[ 7 := samplePinB ]} |}.

(** A pin transport on which closing pin 7 fails and every other close
    succeeds. *)
Definition samplePinClose (w : World) (p : pin) : option error :=
  match p with
  | PinDigital dp => if Z.eqb (dp_n dp) 7 then Some (ErrIO "unexport failed") else None
  | PinOther _ _ => None
  end.

End Embd.

(* ===================================================================== *)
(** ** Package adafruit_charlcd: the LCD controller and its connections   *)
(* ===================================================================== *)

Module CharLCD.

(** *** Bytes *)

(** A Go [byte]: an integer in [0, 256). *)
Definition byte := Z.

Definition wrap8 (z : Z) : byte := z mod 256.

(** [byte(x)] for an [int] x: the low eight bits. *)
Definition byteOfInt (x : Z) : byte := wrap8 x.

(** [x + y] on bytes. *)
Definition add8 (x y : byte) : byte := wrap8 (x + y).

(** [x << n] on a byte, [n] unsigned: the bits shifted past bit 7 are lost,
    and the result is 0 once [n >= 8]. *)
Definition shl8 (x n : byte) : byte := wrap8 (Z.shiftl x n).

(** [^x] on a byte. *)
Definition not8 (x : byte) : byte := Z.lxor x 255.

(** *** Constants *)

(** [time.Duration], in nanoseconds. *)
Definition Duration := Z.
Definition Microsecond : Duration := 1000.
Definition writeDelay : Duration := 37 * Microsecond.
Definition pulseDelay : Duration := 1 * Microsecond.
Definition clearDelay : Duration := 1520 * Microsecond.

Definition lcdInit : byte := 0x33.
Definition lcdInit4bit : byte := 0x32.

Definition lcdClearDisplay : byte := 0x01.
Definition lcdReturnHome : byte := 0x02.
Definition lcdCursorShift : byte := 0x10.
Definition lcdSetCGRamAddr : byte := 0x40.
Definition lcdSetDDRamAddr : byte := 0x80.

Definition lcdCursorMove : byte := 0x00.
Definition lcdDisplayMove : byte := 0x08.
Definition lcdMoveLeft : byte := 0x00.
Definition lcdMoveRight : byte := 0x04.

Definition entryMode := byte.
Definition displayMode := byte.
Definition functionMode := byte.

Definition lcdSetEntryMode : entryMode := 0x04.
Definition lcdEntryDecrement : entryMode := 0x00.
Definition lcdEntryIncrement : entryMode := 0x02.
Definition lcdEntryShiftOff : entryMode := 0x00.
Definition lcdEntryShiftOn : entryMode := 0x01.

Definition lcdSetDisplayMode : displayMode := 0x08.
Definition lcdDisplayOff : displayMode := 0x00.
Definition lcdDisplayOn : displayMode := 0x04.
Definition lcdCursorOff : displayMode := 0x00.
Definition lcdCursorOn : displayMode := 0x02.
Definition lcdBlinkOff : displayMode := 0x00.
Definition lcdBlinkOn : displayMode := 0x01.

Definition lcdSetFunctionMode : functionMode := 0x20.
Definition lcd4BitMode : functionMode := 0x00.
Definition lcd8BitMode : functionMode := 0x10.
Definition lcd1Line : functionMode := 0x00.
Definition lcd2Line : functionMode := 0x08.
Definition lcd5x8Dots : functionMode := 0x00.
Definition lcd5x10Dots : functionMode := 0x04.

(** [type RowAddress [4]byte] *)
Record RowAddress := mkRowAddress {
  row0 : byte; row1 : byte; row2 : byte; row3 : byte
}.

Definition RowAddress16Col : RowAddress := mkRowAddress 0x00 0x40 0x10 0x50.

(** [a[i]] for an [int] index: Go checks the bounds at run time and panics
    outside [0, 4); [None] is that panic. *)
Definition rowAt (a : RowAddress) (i : Z) : option byte :=
  match i with
  | 0 => Some (row0 a)
  | 1 => Some (row1 a)
  | 2 => Some (row2 a)
  | 3 => Some (row3 a)
  | _ => None
  end.

(** [type BacklightPolarity bool] *)
Definition BacklightPolarity := bool.
Definition Negative : BacklightPolarity := false.
Definition Positive : BacklightPolarity := true.

(** *** The outside world *)

(** An error of a collaborator (the bus or an opaque connection). *)
Inductive IOError := IOErr (msg : string).

(** A Go [error]; [None] is [nil]. *)
Definition error := option IOError.

Inductive Event :=
| EvSleep (d : Duration)                    (* time.Sleep(d) *)
| EvWriteByteToReg (addr reg value : byte)  (* I2CBus.WriteByteToReg *)
| EvBusClose                                (* I2CBus.Close *)
| EvWrite (rs : bool) (data : byte)         (* Write on an opaque Connection *)
| EvBacklightOff
| EvBacklightOn
| EvClose.

Definition World := list Event.

(** Operations on the world: the log is threaded, a value is returned. *)
Definition M (A : Type) : Type := World -> World * A.

Definition ret {A} (a : A) : M A := fun w => (w, a).

Definition bind {A B} (m : M A) (k : A -> M B) : M B :=
  fun w => let '(w', a) := m w in k a w'.

Declare Scope lcd_scope.
Delimit Scope lcd_scope with lcd.
Notation "x <- m ;; k" := (bind m (fun x => k))
  (at level 100, m at next level, right associativity) : lcd_scope.
Notation "m ;;; k" := (bind m (fun _ => k))
  (at level 100, right associativity) : lcd_scope.
Local Open Scope lcd_scope.

(** An external call: log the event, answer what the oracle says for the log
    before the call. *)
Definition call (answer : World -> error) (ev : Event) : M error :=
  fun w => (w ++ [ev], answer w).

(** [time.Sleep(d)] *)
Definition Sleep (d : Duration) : M unit := fun w => (w ++ [EvSleep d], tt).

(** [for _, x := range xs { err := body(x); if err != nil { return err } }]
    followed by [rest] when the loop runs to its end. *)
Fixpoint forEach {A} (xs : list A) (body : A -> M error) (rest : M error) : M error :=
  match xs with
  | [] => rest
  | x :: xs' =>
    err <- body x ;;
    match err with
    | Some e => ret (Some e)
    | None => forEach xs' body rest
    end
  end.

(** *** Connections *)

(** [type Connection interface] *)
Class Connection (C : Type) := {
  Write : C -> bool -> byte -> M error;
  BacklightOff : C -> M error;
  BacklightOn : C -> M error;
  Close : C -> M error
}.

(** [embd.I2CBus], as far as this package uses it: what a register write and
    a close return, given the log before the call. *)
Record I2CBus := mkI2CBus {
  writeByteToRegResult : World -> byte -> byte -> byte -> error;
  closeResult : World -> error
}.

Definition WriteByteToReg (i2c : I2CBus) (addr reg value : byte) : M error :=
  call (fun w => writeByteToRegResult i2c w addr reg value)
       (EvWriteByteToReg addr reg value).

Definition I2CBus_Close (i2c : I2CBus) : M error :=
  call (closeResult i2c) EvBusClose.

Record I2CPinMap := mkI2CPinMap {
  RS : byte; RW : byte; EN : byte;
  D4 : byte; D5 : byte; D6 : byte; D7 : byte;
  Backlight : byte;
  BLPolarity : BacklightPolarity
}.

Definition MCP230XXPinMap : I2CPinMap :=
  {| RS := 7; RW := 6; EN := 5;
     D4 := 4; D5 := 3; D6 := 2; D7 := 1;
     Backlight := 0;
     BLPolarity := Positive |}.

Record I2CConnection := mkI2CConnection {
  I2C : I2CBus;
  Addr : byte;
  PinMap : I2CPinMap;
  conn_Backlight : bool
}.

(** [func NewI2CConnection(i2c embd.I2CBus, addr byte, pinMap I2CPinMap)]:
    the five results are assigned to the blank identifier. *)
Definition NewI2CConnection (i2c : I2CBus) (addr : byte) (pinMap : I2CPinMap)
  : M I2CConnection :=
  let x := {| I2C := i2c; Addr := addr; PinMap := pinMap; conn_Backlight := false |} in
  _ <- WriteByteToReg (I2C x) addr 0x05 0x00 ;;
  _ <- WriteByteToReg (I2C x) addr 0x0A 0x20 ;;
  _ <- WriteByteToReg (I2C x) addr 0x12 0x40 ;;
  _ <- WriteByteToReg (I2C x) addr 0x00 0x00 ;;
  _ <- WriteByteToReg (I2C x) addr 0x01 0x00 ;;
  ret x.

Definition I2CConnection_BacklightOff (conn : I2CConnection) : M error :=
  WriteByteToReg (I2C conn) (Addr conn) 0x12 0x40.

Definition I2CConnection_BacklightOn (conn : I2CConnection) : M error :=
  WriteByteToReg (I2C conn) (Addr conn) 0x12 0x00.

(** [func (conn *I2CConnection) pulseEnable(data byte) error] *)
Definition pulseEnable (conn : I2CConnection) (data : byte) : M error :=
  let bytes := [data; Z.lor data (shl8 0x01 (EN (PinMap conn))); data] in
  forEach bytes
    (fun b => Sleep pulseDelay ;;; WriteByteToReg (I2C conn) (Addr conn) 0x13 b)
    (ret None).

(** The two frames built at the top of [Write]. *)
Definition instructionHigh (pm : I2CPinMap) (data : byte) : byte :=
  let ins := 0x00 in
  let ins := Z.lor ins (shl8 (Z.land (Z.shiftr data 4) 0x01) (D4 pm)) in
  let ins := Z.lor ins (shl8 (Z.land (Z.shiftr data 5) 0x01) (D5 pm)) in
  let ins := Z.lor ins (shl8 (Z.land (Z.shiftr data 6) 0x01) (D6 pm)) in
  let ins := Z.lor ins (shl8 (Z.land (Z.shiftr data 7) 0x01) (D7 pm)) in
  ins.

Definition instructionLow (pm : I2CPinMap) (data : byte) : byte :=
  let ins := 0x00 in
  let ins := Z.lor ins (shl8 (Z.land data 0x01) (D4 pm)) in
  let ins := Z.lor ins (shl8 (Z.land (Z.shiftr data 1) 0x01) (D5 pm)) in
  let ins := Z.lor ins (shl8 (Z.land (Z.shiftr data 2) 0x01) (D6 pm)) in
  let ins := Z.lor ins (shl8 (Z.land (Z.shiftr data 3) 0x01) (D7 pm)) in
  ins.

(** [func (conn *I2CConnection) Write(rs bool, data byte) error] *)
Definition I2CConnection_Write (conn : I2CConnection) (rs : bool) (data : byte)
  : M error :=
  let instructions :=
    [instructionHigh (PinMap conn) data; instructionLow (PinMap conn) data] in
  forEach instructions
    (fun ins =>
       let ins := if rs then Z.lor ins (shl8 0x01 (RS (PinMap conn))) else ins in
       pulseEnable conn ins)
    (Sleep writeDelay ;;; ret None).

Definition I2CConnection_Close (conn : I2CConnection) : M error :=
  I2CBus_Close (I2C conn).

#[export] Instance I2CConnection_Connection : Connection I2CConnection := {|
  Write := I2CConnection_Write;
  BacklightOff := I2CConnection_BacklightOff;
  BacklightOn := I2CConnection_BacklightOn;
  Close := I2CConnection_Close
|}.

(** An opaque implementation of [Connection], standing for any connection the
    controller may be built on: every call is logged, and returns what
    [answer] says for the log before the call. *)
Record OpaqueConnection := mkOpaqueConnection {
  answer : World -> error
}.

#[export] Instance OpaqueConnection_Connection : Connection OpaqueConnection := {|
  Write := fun c rs data => call (answer c) (EvWrite rs data);
  BacklightOff := fun c => call (answer c) EvBacklightOff;
  BacklightOn := fun c => call (answer c) EvBacklightOn;
  Close := fun c => call (answer c) EvClose
|}.

(** *** The controller *)

Section Controller.

Context {C : Type} `{Connection C}.

(** [type ADAFRUIT_CHARLCD struct]; the embedded [Connection] is the field
    [conn]. *)
Record ADAFRUIT_CHARLCD := mkLCD {
  conn : C;
  eMode : entryMode;
  dMode : displayMode;
  fMode : functionMode;
  rowAddr : RowAddress
}.

Definition with_eMode (hd : ADAFRUIT_CHARLCD) (v : entryMode) : ADAFRUIT_CHARLCD :=
  {| conn := conn hd; eMode := v; dMode := dMode hd; fMode := fMode hd;
     rowAddr := rowAddr hd |}.

Definition with_dMode (hd : ADAFRUIT_CHARLCD) (v : displayMode) : ADAFRUIT_CHARLCD :=
  {| conn := conn hd; eMode := eMode hd; dMode := v; fMode := fMode hd;
     rowAddr := rowAddr hd |}.

Definition with_fMode (hd : ADAFRUIT_CHARLCD) (v : functionMode) : ADAFRUIT_CHARLCD :=
  {| conn := conn hd; eMode := eMode hd; dMode := dMode hd; fMode := v;
     rowAddr := rowAddr hd |}.

(** [type ModeSetter], a function on a controller pointer: the controller after the
    setter ran. *)
Definition ModeSetter := ADAFRUIT_CHARLCD -> ADAFRUIT_CHARLCD.

Definition EntryDecrement : ModeSetter :=
  fun hd => with_eMode hd (Z.land (eMode hd) (not8 lcdEntryIncrement)).
Definition EntryIncrement : ModeSetter :=
  fun hd => with_eMode hd (Z.lor (eMode hd) lcdEntryIncrement).
Definition EntryShiftOff : ModeSetter :=
  fun hd => with_eMode hd (Z.land (eMode hd) (not8 lcdEntryShiftOn)).
Definition EntryShiftOn : ModeSetter :=
  fun hd => with_eMode hd (Z.lor (eMode hd) lcdEntryShiftOn).

Definition DisplayOff : ModeSetter :=
  fun hd => with_dMode hd (Z.land (dMode hd) (not8 lcdDisplayOn)).
Definition DisplayOn : ModeSetter :=
  fun hd => with_dMode hd (Z.lor (dMode hd) lcdDisplayOn).
Definition CursorOff : ModeSetter :=
  fun hd => with_dMode hd (Z.land (dMode hd) (not8 lcdCursorOn)).
Definition CursorOn : ModeSetter :=
  fun hd => with_dMode hd (Z.lor (dMode hd) lcdCursorOn).
Definition BlinkOff : ModeSetter :=
  fun hd => with_dMode hd (Z.land (dMode hd) (not8 lcdBlinkOn)).
Definition BlinkOn : ModeSetter :=
  fun hd => with_dMode hd (Z.lor (dMode hd) lcdBlinkOn).

Definition FourBitMode : ModeSetter :=
  fun hd => with_fMode hd (Z.land (fMode hd) (not8 lcd8BitMode)).
Definition EightBitMode : ModeSetter :=
  fun hd => with_fMode hd (Z.lor (fMode hd) lcd8BitMode).
Definition OneLine : ModeSetter :=
  fun hd => with_fMode hd (Z.land (fMode hd) (not8 lcd2Line)).
Definition TwoLine : ModeSetter :=
  fun hd => with_fMode hd (Z.lor (fMode hd) lcd2Line).
Definition Dots5x8 : ModeSetter :=
  fun hd => with_fMode hd (Z.land (fMode hd) (not8 lcd5x10Dots)).
Definition Dots5x10 : ModeSetter :=
  fun hd => with_fMode hd (Z.lor (fMode hd) lcd5x10Dots).

Definition DefaultModes : list ModeSetter :=
  [FourBitMode; TwoLine; Dots5x8; EntryIncrement; EntryShiftOff;
   DisplayOn; CursorOff; BlinkOff].

(** The getters: [hd.xMode&flag > 0]. *)
Definition EntryIncrementEnabled (hd : ADAFRUIT_CHARLCD) : bool :=
  Z.ltb 0 (Z.land (eMode hd) lcdEntryIncrement).
Definition EntryShiftEnabled (hd : ADAFRUIT_CHARLCD) : bool :=
  Z.ltb 0 (Z.land (eMode hd) lcdEntryShiftOn).
Definition DisplayEnabled (hd : ADAFRUIT_CHARLCD) : bool :=
  Z.ltb 0 (Z.land (dMode hd) lcdDisplayOn).
Definition CursorEnabled (hd : ADAFRUIT_CHARLCD) : bool :=
  Z.ltb 0 (Z.land (dMode hd) lcdCursorOn).
Definition BlinkEnabled (hd : ADAFRUIT_CHARLCD) : bool :=
  Z.ltb 0 (Z.land (dMode hd) lcdBlinkOn).
Definition EightBitModeEnabled (hd : ADAFRUIT_CHARLCD) : bool :=
  Z.ltb 0 (Z.land (fMode hd) lcd8BitMode).
Definition TwoLineEnabled (hd : ADAFRUIT_CHARLCD) : bool :=
  Z.ltb 0 (Z.land (fMode hd) lcd2Line).
(** [return hd.fMode&lcd5x8Dots > 0] *)
Definition Dots5x10Enabled (hd : ADAFRUIT_CHARLCD) : bool :=
  Z.ltb 0 (Z.land (fMode hd) lcd5x8Dots).

(** [WriteChar] and [WriteInstruction]: [hd.Write(true, value)] and
    [hd.Write(false, value)] on the embedded connection. *)
Definition WriteChar (hd : ADAFRUIT_CHARLCD) (value : byte) : M error :=
  Write (conn hd) true value.

Definition WriteInstruction (hd : ADAFRUIT_CHARLCD) (value : byte) : M error :=
  Write (conn hd) false value.

Definition setEntryMode (hd : ADAFRUIT_CHARLCD) : M error :=
  WriteInstruction hd (Z.lor lcdSetEntryMode (eMode hd)).

Definition setDisplayMode (hd : ADAFRUIT_CHARLCD) : M error :=
  WriteInstruction hd (Z.lor lcdSetDisplayMode (dMode hd)).

Definition setFunctionMode (hd : ADAFRUIT_CHARLCD) : M error :=
  WriteInstruction hd (Z.lor lcdSetFunctionMode (fMode hd)).

(** [for _, m := range modes { m(hd) }] *)
Definition applyModes (modes : list ModeSetter) (hd : ADAFRUIT_CHARLCD)
  : ADAFRUIT_CHARLCD :=
  fold_left (fun h m => m h) modes hd.

(** [func (hd *ADAFRUIT_CHARLCD) SetMode(modes ...ModeSetter) error]; returns
    the controller as the call leaves it, and the error. *)
Definition SetMode (modes : list ModeSetter) (hd : ADAFRUIT_CHARLCD)
  : M (ADAFRUIT_CHARLCD * error) :=
  let hd := applyModes modes hd in
  let functions : list (M error) :=
    [setDisplayMode hd; setFunctionMode hd; setEntryMode hd] in
  err <- forEach functions (fun f => f) (ret None) ;;
  ret (hd, err).

(** The methods that change one display flag and send the display mode. *)
Definition ADAFRUIT_CHARLCD_DisplayOff (hd : ADAFRUIT_CHARLCD) : M (ADAFRUIT_CHARLCD * error) :=
  let hd := DisplayOff hd in err <- setDisplayMode hd ;; ret (hd, err).
Definition ADAFRUIT_CHARLCD_DisplayOn (hd : ADAFRUIT_CHARLCD) : M (ADAFRUIT_CHARLCD * error) :=
  let hd := DisplayOn hd in err <- setDisplayMode hd ;; ret (hd, err).
Definition ADAFRUIT_CHARLCD_CursorOff (hd : ADAFRUIT_CHARLCD) : M (ADAFRUIT_CHARLCD * error) :=
  let hd := CursorOff hd in err <- setDisplayMode hd ;; ret (hd, err).
Definition ADAFRUIT_CHARLCD_CursorOn (hd : ADAFRUIT_CHARLCD) : M (ADAFRUIT_CHARLCD * error) :=
  let hd := CursorOn hd in err <- setDisplayMode hd ;; ret (hd, err).
Definition ADAFRUIT_CHARLCD_BlinkOff (hd : ADAFRUIT_CHARLCD) : M (ADAFRUIT_CHARLCD * error) :=
  let hd := BlinkOff hd in err <- setDisplayMode hd ;; ret (hd, err).
Definition ADAFRUIT_CHARLCD_BlinkOn (hd : ADAFRUIT_CHARLCD) : M (ADAFRUIT_CHARLCD * error) :=
  let hd := BlinkOn hd in err <- setDisplayMode hd ;; ret (hd, err).

Definition ShiftLeft (hd : ADAFRUIT_CHARLCD) : M error :=
  WriteInstruction hd (Z.lor (Z.lor lcdCursorShift lcdDisplayMove) lcdMoveLeft).

Definition ShiftRight (hd : ADAFRUIT_CHARLCD) : M error :=
  WriteInstruction hd (Z.lor (Z.lor lcdCursorShift lcdDisplayMove) lcdMoveRight).

Definition Home (hd : ADAFRUIT_CHARLCD) : M error :=
  err <- WriteInstruction hd lcdReturnHome ;;
  Sleep clearDelay ;;;
  ret err.

(** [func (hd *ADAFRUIT_CHARLCD) Clear() error] *)
Definition Clear (hd : ADAFRUIT_CHARLCD) : M (ADAFRUIT_CHARLCD * error) :=
  err <- WriteInstruction hd lcdClearDisplay ;;
  match err with
  | Some e => ret (hd, Some e)
  | None =>
    Sleep clearDelay ;;;
    SetMode [] hd
  end.

(** [func (hd *ADAFRUIT_CHARLCD) lcdRowOffset(row int) byte]; [None] is the
    run-time panic of the index expression. *)
Definition lcdRowOffset (hd : ADAFRUIT_CHARLCD) (row : Z) : option byte :=
  let row := if Z.ltb 3 row then 3 else row in
  rowAt (rowAddr hd) row.

Definition SetDDRamAddr (hd : ADAFRUIT_CHARLCD) (value : byte) : M error :=
  WriteInstruction hd (Z.lor lcdSetDDRamAddr value).

(** How a call ends: it returns its [error], or it panics. *)
Inductive Completion :=
| Returned (err : error)
| Panicked.

(** [func (hd *ADAFRUIT_CHARLCD) SetCursor(col, row int) error]: the argument
    [byte(col) + hd.lcdRowOffset(row)] is evaluated before [SetDDRamAddr] is
    called. *)
Definition SetCursor (hd : ADAFRUIT_CHARLCD) (col row : Z) : M Completion :=
  match lcdRowOffset hd row with
  | None => ret Panicked
  | Some off =>
    err <- SetDDRamAddr hd (add8 (byteOfInt col) off) ;;
    ret (Returned err)
  end.

Definition ADAFRUIT_CHARLCD_lcdInit (hd : ADAFRUIT_CHARLCD) : M error :=
  err <- WriteInstruction hd lcdInit ;;
  match err with
  | Some e => ret (Some e)
  | None => WriteInstruction hd lcdInit4bit
  end.

Definition ADAFRUIT_CHARLCD_Close (hd : ADAFRUIT_CHARLCD) : M error :=
  Close (conn hd).

(** [func New(bus Connection, rowAddr RowAddress, modes ...ModeSetter)];
    [inr err] is [(nil, err)]. *)
Definition New (bus : C) (ra : RowAddress) (modes : list ModeSetter)
  : M (ADAFRUIT_CHARLCD + IOError) :=
  let controller :=
    {| conn := bus; eMode := 0x00; dMode := 0x00; fMode := 0x00; rowAddr := ra |} in
  err <- ADAFRUIT_CHARLCD_lcdInit controller ;;
  match err with
  | Some e => ret (inr e)
  | None =>
    r <- SetMode (DefaultModes ++ modes) controller ;;
    match r with
    | (_, Some e) => ret (inr e)
    | (controller, None) => ret (inl controller)
    end
  end.

End Controller.

Arguments ADAFRUIT_CHARLCD C : clear implicits.
Arguments ModeSetter C : clear implicits.

(** [func NewI2C(i2c, addr, pinMap, rowAddr, modes...)] *)
Definition NewI2C (i2c : I2CBus) (addr : byte) (pinMap : I2CPinMap)
    (ra : RowAddress) (modes : list (ModeSetter I2CConnection))
  : M (ADAFRUIT_CHARLCD I2CConnection + IOError) :=
  c <- NewI2CConnection i2c addr pinMap ;;
  New c ra modes.

(** *** Vocabulary of the statements *)

(** A frame as [Write] hands it to [pulseEnable]: the RS bit is OR'd in when
    [rs] is set. *)
Definition withRS (pm : I2CPinMap) (rs : bool) (ins : byte) : byte :=
  if rs then Z.lor ins (shl8 0x01 (RS pm)) else ins.

(** The enable strobe of one frame: enable low, high, low. *)
Definition strobe (pm : I2CPinMap) (frame : byte) : list byte :=
  [frame; Z.lor frame (shl8 0x01 (EN pm)); frame].

(** The six bytes of one [Write], high nibble first. *)
Definition sixFrames (pm : I2CPinMap) (rs : bool) (data : byte) : list byte :=
  strobe pm (withRS pm rs (instructionHigh pm data))
  ++ strobe pm (withRS pm rs (instructionLow pm data)).

(** The log of writing the bytes [bs] to the expander's output register
    0x13, each after the pulse delay. *)
Definition pulseLog (addr : byte) (bs : list byte) : World :=
  flat_map (λ b, [EvSleep pulseDelay; EvWriteByteToReg addr 0x13 b]) bs.

(** One round of the loop of [pulseEnable]: the pulse delay, then the write
    to the output register. *)
Definition pulseStep (conn : I2CConnection) (b : byte) : M error :=
  Sleep pulseDelay ;;; WriteByteToReg (I2C conn) (Addr conn) 0x13 b.

(** The register writes of a log, in order: address, register, value. *)
Definition busWrites (w : World) : list (byte * byte * byte) :=
  omap (λ ev, match ev with
              | EvWriteByteToReg a r v => Some (a, r, v)
              | _ => None
              end) w.

(** Each of the writes [bs], performed in order from the log [w], is
    accepted by the bus. *)
Fixpoint allWritesOk (i2c : I2CBus) (addr : byte) (w : World) (bs : list byte) : Prop :=
  match bs with
  | [] => True
  | b :: rest =>
    writeByteToRegResult i2c (w ++ [EvSleep pulseDelay]) addr 0x13 b = None
    ∧ allWritesOk i2c addr (w ++ [EvSleep pulseDelay; EvWriteByteToReg addr 0x13 b]) rest
  end.

(** The six lines of a pin map sit on six different bits of the register. *)
Definition wfPinMap (pm : I2CPinMap) : Prop :=
  Forall (λ p, 0 ≤ p < 8) [RS pm; EN pm; D4 pm; D5 pm; D6 pm; D7 pm]
  ∧ NoDup [RS pm; EN pm; D4 pm; D5 pm; D6 pm; D7 pm].

(** The frame carries the nibble [b3 b2 b1 b0] on the lines D7..D4, [rs] on
    the RS line, and has the enable line low. *)
Definition frameCarries (pm : I2CPinMap) (rs b0 b1 b2 b3 : bool) (frame : byte) : Prop :=
  Z.testbit frame (D4 pm) = b0 ∧ Z.testbit frame (D5 pm) = b1
  ∧ Z.testbit frame (D6 pm) = b2 ∧ Z.testbit frame (D7 pm) = b3
  ∧ Z.testbit frame (RS pm) = rs ∧ Z.testbit frame (EN pm) = false.

(** The instructions written on an opaque connection, in order. *)
Definition instructionsSent (w : World) : list byte :=
  omap (λ ev, match ev with EvWrite false v => Some v | _ => None end) w.

(** The eight flags the getters read. *)
Inductive Flag :=
| FlagEntryIncrement | FlagEntryShift
| FlagDisplay | FlagCursor | FlagBlink
| FlagEightBit | FlagTwoLine | FlagDots5x10.

(** The getter of a flag. *)
Definition flagEnabled {C} (fl : Flag) (hd : ADAFRUIT_CHARLCD C) : bool :=
  match fl with
  | FlagEntryIncrement => EntryIncrementEnabled hd
  | FlagEntryShift => EntryShiftEnabled hd
  | FlagDisplay => DisplayEnabled hd
  | FlagCursor => CursorEnabled hd
  | FlagBlink => BlinkEnabled hd
  | FlagEightBit => EightBitModeEnabled hd
  | FlagTwoLine => TwoLineEnabled hd
  | FlagDots5x10 => Dots5x10Enabled hd
  end.

(** The sixteen mode setters of the package, each with the flag it writes and
    the value it gives it. *)
Definition setterTable {C} : list (ModeSetter C * Flag * bool) :=
  [ (EntryIncrement, FlagEntryIncrement, true);
    (EntryDecrement, FlagEntryIncrement, false);
    (EntryShiftOn, FlagEntryShift, true);
    (EntryShiftOff, FlagEntryShift, false);
    (DisplayOn, FlagDisplay, true);
    (DisplayOff, FlagDisplay, false);
    (CursorOn, FlagCursor, true);
    (CursorOff, FlagCursor, false);
    (BlinkOn, FlagBlink, true);
    (BlinkOff, FlagBlink, false);
    (EightBitMode, FlagEightBit, true);
    (FourBitMode, FlagEightBit, false);
    (TwoLine, FlagTwoLine, true);
    (OneLine, FlagTwoLine, false);
    (Dots5x10, FlagDots5x10, true);
    (Dots5x8, FlagDots5x10, false) ].

Definition providedSetters {C} : list (ModeSetter C) :=
  (λ row : ModeSetter C * Flag * bool, row.1.1) <$> setterTable.

(** The six methods that change one display flag and send the display mode,
    each with its flag and value. *)
Definition displayMethodTable
  : list ((ADAFRUIT_CHARLCD OpaqueConnection
           → M (ADAFRUIT_CHARLCD OpaqueConnection * error)) * Flag * bool) :=
  [ (ADAFRUIT_CHARLCD_DisplayOn, FlagDisplay, true);
    (ADAFRUIT_CHARLCD_DisplayOff, FlagDisplay, false);
    (ADAFRUIT_CHARLCD_CursorOn, FlagCursor, true);
    (ADAFRUIT_CHARLCD_CursorOff, FlagCursor, false);
    (ADAFRUIT_CHARLCD_BlinkOn, FlagBlink, true);
    (ADAFRUIT_CHARLCD_BlinkOff, FlagBlink, false) ].

(** The three mode fields hold nothing but their flags: entry mode within
    bits 0..1, display mode within bits 0..2, function mode within bits
    2..4. *)
Definition modesInRange {C} (hd : ADAFRUIT_CHARLCD C) : Prop :=
  0 ≤ eMode hd < 4
  ∧ 0 ≤ dMode hd < 8
  ∧ 0 ≤ fMode hd < 32 ∧ fMode hd mod 4 = 0.

(** What a controller wired to the expander reads off a frame: the level of
    one line, and the nibble on the four data lines. *)
Definition lineBit (frame line : byte) : Z := Z.b2z (Z.testbit frame line).

Definition decodeNibble (pm : I2CPinMap) (frame : byte) : Z :=
  lineBit frame (D4 pm) + 2 * lineBit frame (D5 pm)
  + 4 * lineBit frame (D6 pm) + 8 * lineBit frame (D7 pm).

(** The five register writes of [NewI2CConnection]. *)
Definition setupLog (addr : byte) : World :=
  [EvWriteByteToReg addr 0x05 0x00; EvWriteByteToReg addr 0x0A 0x20;
   EvWriteByteToReg addr 0x12 0x40; EvWriteByteToReg addr 0x00 0x00;
   EvWriteByteToReg addr 0x01 0x00].

(** *** Sample data, used to run the statements on concrete inputs *)

(** A bus that accepts every call, and one that refuses every register
    write. *)
Definition sampleBusOk : I2CBus :=
  {| writeByteToRegResult := λ _ _ _ _, None; closeResult := λ _, None |}.

Definition sampleBusDown : I2CBus :=
  {| writeByteToRegResult := λ _ _ _ _, Some (IOErr "no ack");
     closeResult := λ _, None |}.

(** The pin map of the worked example: D4..D7 on bits 1..4, EN on bit 5, RS
    on bit 7. *)
Definition samplePinMap : I2CPinMap :=
  {| RS := 7; RW := 6; EN := 5;
     D4 := 1; D5 := 2; D6 := 3; D7 := 4;
     Backlight := 0;
     BLPolarity := Positive |}.

Definition sampleConn (i2c : I2CBus) : I2CConnection :=
  {| I2C := i2c; Addr := 0x20; PinMap := samplePinMap; conn_Backlight := false |}.

(** Opaque connections: one that accepts every call, one that refuses every
    call, and one that accepts a call while fewer than [n] instructions
    have been sent and refuses it afterwards. *)
Definition sampleLinkOk : OpaqueConnection := {| answer := λ _, None |}.


Definition sampleLinkFailingAfter (n : nat) : OpaqueConnection :=
  {| answer := λ w, if Nat.ltb (length (instructionsSent w)) n
                    then None else Some (IOErr "link down") |}.

Definition sampleLCD (c : OpaqueConnection) : ADAFRUIT_CHARLCD OpaqueConnection :=
  {| conn := c; eMode := 0x02; dMode := 0x04; fMode := 0x08;
     rowAddr := RowAddress16Col |}.

End CharLCD.

(* ===================================================================== *)
(** ** Properties of the pin registry and the GPIO driver                 *)
(* ===================================================================== *)

Section EmbdProperties.

Import Embd.

Lemma idsMatch_elem_of (ids : list string) (key : string) :
  idsMatch ids key = true ↔ key ∈ ids.
Proof.
  induction ids as [|id rest IH]; simpl.
  - split; [discriminate | intros Hin; inversion Hin].
  - destruct (String.eqb_spec id key) as [-> | Hne].
    + split; [intros _; left | reflexivity].
    + rewrite IH. split; [by right |].
      intros Hin. inversion Hin; subst; [congruence | assumption].
Qed.

Lemma lookupInt_first (m : PinMap) (key : Z) :
  match lookupInt m key with
  | Some pd => ∃ pre post, m = pre ++ pd :: post ∧ N pd = key
                 ∧ Forall (λ q, N q ≠ key) pre
  | None => Forall (λ q, N q ≠ key) m
  end.
Proof.
  induction m as [|pd rest IH]; simpl; [constructor |].
  destruct (Z.eqb_spec (N pd) key) as [Heq | Hne].
  - exists [], rest. repeat split; [assumption | constructor].
  - destruct (lookupInt rest key) as [found|].
    + destruct IH as (pre & post & -> & Hn & Hpre).
      exists (pd :: pre), post. repeat split; [assumption | by constructor].
    + by constructor.
Qed.

Lemma lookupString_first (m : PinMap) (key : string) :
  match lookupString m key with
  | Some pd => ∃ pre post, m = pre ++ pd :: post ∧ key ∈ IDs pd
                 ∧ Forall (λ q, key ∉ IDs q) pre
  | None => Forall (λ q, key ∉ IDs q) m
  end.
Proof.
  induction m as [|pd rest IH]; simpl; [constructor |].
  destruct (idsMatch (IDs pd) key) eqn:Hm.
  - apply idsMatch_elem_of in Hm.
    exists [], rest. repeat split; [assumption | constructor].
  - assert (key ∉ IDs pd) as Hnot.
    { intros Hin. apply idsMatch_elem_of in Hin. congruence. }
    destruct (lookupString rest key) as [found|].
    + destruct IH as (pre & post & -> & Hn & Hpre).
      exists (pd :: pre), post. repeat split; [assumption | by constructor].
    + by constructor.
Qed.

(** C9.  [PinMap.Lookup] is a total function of the registry and the key and
    returns nothing but its answer (the registry is not an output, so it is
    not changed).  For an [int] key the answer is the first descriptor whose
    number equals the key, for a [string] key the first descriptor one of
    whose aliases equals the key: every descriptor before the answer fails to
    match, and the answer is absent exactly when no descriptor matches.  A key
    of any other dynamic type is answered by absence. *)
Theorem Lookup_first_match (m : PinMap) (k : Key) :
  match Lookup m k with
  | Some pd => ∃ pre post, m = pre ++ pd :: post ∧ keyMatches k pd
                 ∧ Forall (λ q, ¬ keyMatches k q) pre
  | None => Forall (λ q, ¬ keyMatches k q) m
  end
  ∧ match k with
    | KeyInt _ | KeyString _ => True
    | KeyOther _ => Lookup m k = None
    end.
Proof.
  destruct k as [n | s | dyn]; simpl; split; try exact I.
  - apply lookupInt_first.
  - apply lookupString_first.
  - apply Forall_forall. intros q _ Hq. exact Hq.
  - reflexivity.
Qed.

(** Pin 10 of the sample board is found by number and by either alias; a
    key that is neither an [int] nor a [string] finds nothing. *)
Example Lookup_sampleBoard :
  Lookup sampleBoard (KeyInt 10) = Lookup sampleBoard (KeyString "GPIO_10")
  ∧ N <$> Lookup sampleBoard (KeyString "P8_31") = Some 10
  ∧ Lookup sampleBoard (KeyString "GPIO_11") = None
  ∧ Lookup sampleBoard (KeyOther "int64") = None.
Proof. repeat split. Qed.

(** The three ways [digitalPin] ends when the key resolves, by what the map
    holds for the pin. *)
Lemma digitalPin_held_digital io key w pd dp :
  lookupKey io key = Some pd →
  initializedPins io !! N pd = Some (PinDigital dp) →
  gpioDriver_digitalPin io key w = (io, w, inl dp).
Proof. intros Hk Hp. unfold gpioDriver_digitalPin. by rewrite Hk, Hp. Qed.

Lemma digitalPin_held_other io key w pd kind ref :
  lookupKey io key = Some pd →
  initializedPins io !! N pd = Some (PinOther kind ref) →
  gpioDriver_digitalPin io key w = (io, w, inr (ErrModeConflict key)).
Proof. intros Hk Hp. unfold gpioDriver_digitalPin. by rewrite Hk, Hp. Qed.

Lemma digitalPin_fresh io key w pd :
  lookupKey io key = Some pd →
  initializedPins io !! N pd = None →
  Z.land (Caps pd) CapNormal ≠ 0 →
  let w1 := if Z.eqb (Caps pd) CapNormal then w else w ++ [EvInfo key] in
  let dp := {| dp_ref := length w1; dp_n := N pd |} in
  gpioDriver_digitalPin io key w =
    ({| pinMap := pinMap io;
        initializedPins := <[N pd := PinDigital dp]> (initializedPins io) |},
     w1 ++ [EvOpen (N pd)], inl dp).
Proof.
  intros Hk Hp Hcap. unfold gpioDriver_digitalPin. rewrite Hk, Hp.
  destruct (Z.eqb_spec (Z.land (Caps pd) CapNormal) 0); [contradiction | reflexivity].
Qed.

Lemma opens_app (w1 w2 : World) : opens (w1 ++ w2) = opens w1 ++ opens w2.
Proof. unfold opens. apply omap_app. Qed.

(** C6.  When the key resolves to a pin whose entry in the map is a
    digital-pin handle, [digitalPin] returns that very handle, logs nothing
    (no open) and leaves the driver, hence the map, as it was.  So when one
    acquisition succeeds, the next one with the same key returns the same
    handle from the same driver state and log; and if the pin was not held
    before the first of them, the two together open it exactly once. *)
Theorem digitalPin_reacquire (io : gpioDriver) (key : Key) (w : World) :
  (∀ pd dp,
     lookupKey io key = Some pd →
     initializedPins io !! N pd = Some (PinDigital dp) →
     gpioDriver_digitalPin io key w = (io, w, inl dp))
  ∧ (∀ io1 w1 dp,
       gpioDriver_digitalPin io key w = (io1, w1, inl dp) →
       gpioDriver_digitalPin io1 key w1 = (io1, w1, inl dp)
       ∧ (∀ pd, lookupKey io key = Some pd →
                initializedPins io !! N pd = None →
                opens w1 = opens w ++ [N pd])).
Proof.
  split; [intros pd dp; apply digitalPin_held_digital |].
  intros io1 w1 dp Hfirst.
  destruct (lookupKey io key) as [pd|] eqn:Hk;
    [| unfold gpioDriver_digitalPin in Hfirst; rewrite Hk in Hfirst; discriminate].
  destruct (initializedPins io !! N pd) as [[held | kind ref]|] eqn:Hp.
  - rewrite (digitalPin_held_digital _ _ _ _ _ Hk Hp) in Hfirst.
    injection Hfirst as <- <- <-.
    split; [by apply (digitalPin_held_digital _ _ _ pd) |].
    intros pd' [= <-] Hnone. congruence.
  - rewrite (digitalPin_held_other _ _ _ _ _ _ Hk Hp) in Hfirst. discriminate.
  - destruct (Z.eqb_spec (Z.land (Caps pd) CapNormal) 0) as [Hz | Hnz].
    + unfold gpioDriver_digitalPin in Hfirst. rewrite Hk, Hp in Hfirst.
      apply Z.eqb_eq in Hz. rewrite Hz in Hfirst. discriminate.
    + rewrite (digitalPin_fresh _ _ _ _ Hk Hp Hnz) in Hfirst.
      injection Hfirst as <- <- <-.
      split.
      * apply (digitalPin_held_digital _ _ _ pd); [exact Hk | apply lookup_insert_eq].
      * intros pd' [= <-] _. rewrite opens_app.
        destruct (Z.eqb (Caps pd) CapNormal); [reflexivity |].
        rewrite opens_app. simpl. by rewrite app_nil_r.
Qed.

(** C7.  A call of [digitalPin] that fails returns the driver and the log
    exactly as it received them: the map is unchanged and nothing is opened,
    closed or replaced.  It fails with not-found when the key resolves to no
    descriptor, with the mode conflict when the pin holds a handle of another
    kind, and with unsupported-mode when the pin holds no handle and its mask
    lacks [CapNormal].  When the pin holds no handle and the mask has
    [CapNormal], with or without further flags, the call succeeds. *)
Theorem digitalPin_failure_modes (io : gpioDriver) (key : Key) (w : World) :
  (∀ io' w' e, gpioDriver_digitalPin io key w = (io', w', inr e) → io' = io ∧ w' = w)
  ∧ (lookupKey io key = None →
       gpioDriver_digitalPin io key w = (io, w, inr (ErrNotFound key)))
  ∧ (∀ pd kind ref,
       lookupKey io key = Some pd →
       initializedPins io !! N pd = Some (PinOther kind ref) →
       gpioDriver_digitalPin io key w = (io, w, inr (ErrModeConflict key)))
  ∧ (∀ pd,
       lookupKey io key = Some pd →
       initializedPins io !! N pd = None →
       Z.land (Caps pd) CapNormal = 0 →
       gpioDriver_digitalPin io key w = (io, w, inr (ErrUnsupportedMode key)))
  ∧ (∀ pd,
       lookupKey io key = Some pd →
       initializedPins io !! N pd = None →
       Z.land (Caps pd) CapNormal ≠ 0 →
       ∃ io' w' dp, gpioDriver_digitalPin io key w = (io', w', inl dp)
                    ∧ initializedPins io' !! N pd = Some (PinDigital dp)
                    ∧ opens w' = opens w ++ [N pd]).
Proof.
  split; [| split; [| split; [| split]]].
  - intros io' w' e Hfail. unfold gpioDriver_digitalPin in Hfail.
    destruct (lookupKey io key) as [pd|]; [| split; congruence].
    destruct (initializedPins io !! N pd) as [[held | kind ref]|];
      [split; congruence.. |].
    destruct (Z.eqb (Z.land (Caps pd) CapNormal) 0);
      [split; congruence | discriminate].
  - intros Hk. unfold gpioDriver_digitalPin. by rewrite Hk.
  - intros pd kind ref. apply digitalPin_held_other.
  - intros pd Hk Hp Hcap. unfold gpioDriver_digitalPin. rewrite Hk, Hp.
    apply Z.eqb_eq in Hcap. by rewrite Hcap.
  - intros pd Hk Hp Hcap. eexists _, _, _.
    split; [apply (digitalPin_fresh _ _ _ _ Hk Hp Hcap) |].
    simpl. split; [apply lookup_insert_eq |].
    rewrite opens_app. destruct (Z.eqb (Caps pd) CapNormal); [reflexivity |].
    rewrite opens_app. simpl. by rewrite app_nil_r.
Qed.

(** Two acquisitions of pin 10 of the sample board by its alias: the same
    handle both times, one open in all. *)
Lemma digitalPin_reacquire_witness :
  ∃ io1 w1 dp,
    gpioDriver_digitalPin (newGPIODriver sampleBoard) (KeyString "GPIO_10") []
      = (io1, w1, inl dp)
    ∧ gpioDriver_digitalPin io1 (KeyString "GPIO_10") w1 = (io1, w1, inl dp)
    ∧ opens w1 = [10].
Proof.
  destruct (digitalPin_reacquire (newGPIODriver sampleBoard) (KeyString "GPIO_10") [])
    as [_ Htwice].
  eexists _, _, _. split; [reflexivity |].
  destruct (Htwice _ _ _ eq_refl) as [Hsame Hopens].
  split; [exact Hsame |].
  exact (Hopens _ eq_refl eq_refl).
Defined.

(** The four outcomes on the sample driver: an unknown number, the pin held
    under another kind, a pin without [CapNormal], and a pin with [CapNormal]
    and [CapUART]. *)
Lemma digitalPin_failure_modes_witness :
  gpioDriver_digitalPin sampleDriver (KeyInt 99) []
    = (sampleDriver, [], inr (ErrNotFound (KeyInt 99)))
  ∧ gpioDriver_digitalPin sampleDriver (KeyString "AIN0") []
    = (sampleDriver, [], inr (ErrModeConflict (KeyString "AIN0")))
  ∧ gpioDriver_digitalPin sampleDriver (KeyInt 3) []
    = (sampleDriver, [], inr (ErrUnsupportedMode (KeyInt 3)))
  ∧ ∃ io' w' dp,
      gpioDriver_digitalPin sampleDriver (KeyInt 10) [] = (io', w', inl dp)
      ∧ initializedPins io' !! 10 = Some (PinDigital dp)
      ∧ opens w' = [10].
Proof.
  split; [| split; [| split]].
  - apply (digitalPin_failure_modes sampleDriver (KeyInt 99) []). reflexivity.
  - eapply (digitalPin_failure_modes sampleDriver (KeyString "AIN0") []);
      reflexivity.
  - eapply (digitalPin_failure_modes sampleDriver (KeyInt 3) []); reflexivity.
  - destruct (digitalPin_failure_modes sampleDriver (KeyInt 10) [])
      as (_ & _ & _ & _ & Hok).
    apply (Hok {| N := 10; IDs := ["P8_31"; "GPIO_10"];
                  Caps := Z.lor CapNormal CapUART |});
      [reflexivity | reflexivity | by vm_compute].
Defined.

Section CloseProperties.

Variable pinClose : World → pin → option error.

Lemma closeLoop_all_ok (ps : list pin) (w : World) :
  allCloseOk pinClose w ps →
  closeLoop pinClose ps w = (w ++ closeEvents ps, None).
Proof.
  revert w. induction ps as [|p rest IH]; intros w Hok; simpl.
  - by rewrite app_nil_r.
  - destruct Hok as [Hp Hrest]. rewrite Hp, (IH _ Hrest).
    by rewrite <- app_assoc.
Qed.

Lemma closeLoop_first_failure (pre post : list pin) (p : pin) (e : error) (w : World) :
  allCloseOk pinClose w pre →
  pinClose (w ++ closeEvents pre) p = Some e →
  closeLoop pinClose (pre ++ p :: post) w =
    (w ++ closeEvents pre ++ [EvClose p], Some e).
Proof.
  revert w. induction pre as [|q pre IH]; intros w Hok Hfail; simpl in *.
  - rewrite app_nil_r in Hfail. by rewrite Hfail.
  - destruct Hok as [Hq Hrest]. rewrite Hq.
    rewrite IH; [by rewrite <- app_assoc | assumption |].
    by rewrite <- app_assoc.
Qed.

(** C8.  [Close] visits the held handles in the order the runtime picks.  If
    every close succeeds, each held handle is closed once and [nil] is
    returned.  Otherwise the loop returns at the first close that fails, with
    that error: the handles before it and the failing one have been asked to
    close, the ones after it have not.  In both cases the driver, and with it
    every entry of the map, is left as it was. *)
Theorem Close_stops_at_first_failure
    (order : list (Z * pin)) (io : gpioDriver) (w : World) :
  order ≡ₚ map_to_list (initializedPins io) →
  (allCloseOk pinClose w order.*2 →
     Close pinClose order io w = (io, w ++ closeEvents order.*2, None))
  ∧ (∀ pre p post e,
       order.*2 = pre ++ p :: post →
       allCloseOk pinClose w pre →
       pinClose (w ++ closeEvents pre) p = Some e →
       Close pinClose order io w = (io, w ++ closeEvents pre ++ [EvClose p], Some e))
  ∧ (∀ n p, (n, p) ∈ order ↔ initializedPins io !! n = Some p).
Proof.
  intros Hperm. split; [| split].
  - intros Hok. unfold Close. by rewrite (closeLoop_all_ok _ _ Hok).
  - intros pre p post e Hsplit Hok Hfail. unfold Close.
    by rewrite Hsplit, (closeLoop_first_failure _ _ _ _ _ Hok Hfail).
  - intros n p. rewrite Hperm. apply elem_of_map_to_list.
Qed.

End CloseProperties.

(** The sample driver closed in the order 7, 10: the first close fails, pin
    10 is never asked to close, and both entries stay in the map. *)
Lemma Close_stops_at_first_failure_witness :
  Close samplePinClose [(7, samplePinB); (10, samplePinA)] sampleHolder [] =
    (sampleHolder, [EvClose samplePinB], Some (ErrIO "unexport failed"))
  ∧ ((7, samplePinB) ∈ [(7, samplePinB); (10, samplePinA)]
     ↔ initializedPins sampleHolder !! 7 = Some samplePinB).
Proof.
  assert ([(7, samplePinB); (10, samplePinA)]
            ≡ₚ map_to_list (initializedPins sampleHolder)) as Hperm.
  { unfold sampleHolder; simpl.
    rewrite map_to_list_insert by (by vm_compute).
    rewrite map_to_list_singleton. apply Permutation_swap. }
  destruct (Close_stops_at_first_failure samplePinClose _ sampleHolder [] Hperm)
    as (_ & Hfail & Hheld).
  split; [| apply Hheld].
  apply (Hfail [] samplePinB [samplePinA] (ErrIO "unexport failed"));
    [reflexivity | exact I | reflexivity].
Defined.


End EmbdProperties.

(* ===================================================================== *)
(** ** Properties of the I2C connection                                   *)
(* ===================================================================== *)

Section I2CConnectionProperties.

Import CharLCD.
Local Open Scope lcd_scope.

(** C10.  [NewI2CConnection] returns the connection built from its three
    arguments whatever the bus answers: it issues the five set-up writes
    (IOCON at 0x05 and 0x0A, the backlight-off value to 0x12, the two
    direction registers 0x00 and 0x01), in this order, and the result of none
    of them reaches the caller.  The bus [i2c] is arbitrary, so this covers a
    bus on which every write fails. *)
Theorem NewI2CConnection_always_returns
    (i2c : I2CBus) (addr : byte) (pinMap : I2CPinMap) (w : World) :
  NewI2CConnection i2c addr pinMap w =
    (w ++ [EvWriteByteToReg addr 0x05 0x00;
           EvWriteByteToReg addr 0x0A 0x20;
           EvWriteByteToReg addr 0x12 0x40;
           EvWriteByteToReg addr 0x00 0x00;
           EvWriteByteToReg addr 0x01 0x00],
     {| I2C := i2c; Addr := addr; PinMap := pinMap; conn_Backlight := false |}).
Proof.
  unfold NewI2CConnection, WriteByteToReg, call, bind, ret. simpl.
  by rewrite <- !app_assoc.
Qed.

Lemma Write_flat (conn : I2CConnection) (rs : bool) (data : byte) (w : World) :
  I2CConnection_Write conn rs data w =
    forEach (sixFrames (PinMap conn) rs data) (pulseStep conn)
            (Sleep writeDelay ;;; ret None) w.
Proof.
  unfold I2CConnection_Write, pulseEnable, sixFrames, strobe.
  cbn [app forEach].
  cbv [pulseStep withRS WriteByteToReg call Sleep bind ret byte].
  repeat match goal with
         | |- context [writeByteToRegResult ?i ?h ?a ?r ?v] =>
           destruct (writeByteToRegResult i h a r v); cbv beta iota
         end; reflexivity.
Qed.

Lemma forEach_pulse_ok (conn : I2CConnection) (rest : M error) (bs : list byte) (w : World) :
  allWritesOk (I2C conn) (Addr conn) w bs →
  forEach bs (pulseStep conn) rest w = rest (w ++ pulseLog (Addr conn) bs).
Proof.
  revert w. induction bs as [|b bs IH]; intros w Hok; simpl.
  - by rewrite app_nil_r.
  - destruct Hok as [Hb Hrest].
    unfold pulseStep at 1, WriteByteToReg, call, Sleep, bind. rewrite Hb.
    rewrite <- !app_assoc. simpl. rewrite (IH _ Hrest).
    by rewrite <- app_assoc.
Qed.

Lemma forEach_pulse_fail (conn : I2CConnection) (rest : M error)
    (pre post : list byte) (b : byte) (e : IOError) (w : World) :
  allWritesOk (I2C conn) (Addr conn) w pre →
  writeByteToRegResult (I2C conn)
    (w ++ pulseLog (Addr conn) pre ++ [EvSleep pulseDelay]) (Addr conn) 0x13 b = Some e →
  forEach (pre ++ b :: post) (pulseStep conn) rest w =
    (w ++ pulseLog (Addr conn) pre
       ++ [EvSleep pulseDelay; EvWriteByteToReg (Addr conn) 0x13 b], Some e).
Proof.
  revert w. induction pre as [|q pre IH]; intros w Hok Hfail; simpl in *.
  - unfold pulseStep, WriteByteToReg, call, Sleep, bind, ret. rewrite Hfail.
    by rewrite <- !app_assoc.
  - destruct Hok as [Hq Hrest].
    unfold pulseStep at 1, WriteByteToReg, call, Sleep, bind. rewrite Hq.
    rewrite <- !app_assoc. simpl. rewrite IH; [| assumption |].
    + by rewrite <- !app_assoc.
    + by rewrite <- !app_assoc.
Qed.

Lemma allWritesOk_of_never_failing (i2c : I2CBus) (addr : byte) (bs : list byte) (w : World) :
  (∀ h a r v, writeByteToRegResult i2c h a r v = None) →
  allWritesOk i2c addr w bs.
Proof.
  intros Hbus. revert w. induction bs as [|b bs IH]; intros w; simpl; [exact I |].
  split; [apply Hbus | apply IH].
Qed.

Lemma busWrites_app (w1 w2 : World) : busWrites (w1 ++ w2) = busWrites w1 ++ busWrites w2.
Proof. unfold busWrites. apply omap_app. Qed.

Lemma busWrites_pulseLog (addr : byte) (bs : list byte) :
  busWrites (pulseLog addr bs) = (λ b, (addr, 0x13, b)) <$> bs.
Proof. induction bs as [|b bs IH]; simpl; [reflexivity | by f_equal]. Qed.

(** Bits of a byte shifted to a line of the register. *)
Lemma testbit_one (n : Z) : Z.testbit 1 n = (n =? 0).
Proof. destruct n as [|[]|]; reflexivity. Qed.

Lemma testbit_shl8 (x p q : Z) :
  0 ≤ q < 8 → Z.testbit (shl8 x p) q = Z.testbit x (q - p) || false.
Proof.
  intros Hq. unfold shl8, wrap8. change 256 with (2 ^ 8).
  rewrite Z.mod_pow2_bits_low by lia.
  rewrite Z.shiftl_spec by lia. by rewrite orb_false_r.
Qed.

Lemma testbit_shl8_high (x p q : Z) : 8 ≤ q → Z.testbit (shl8 x p) q = false.
Proof.
  intros Hq. unfold shl8, wrap8. change 256 with (2 ^ 8).
  apply Z.mod_pow2_bits_high. lia.
Qed.

Lemma testbit_shl8_one (p q : Z) : 0 ≤ q < 8 → Z.testbit (shl8 1 p) q = (q =? p).
Proof.
  intros Hq. rewrite testbit_shl8, orb_false_r, testbit_one by assumption.
  destruct (Z.eqb_spec (q - p) 0), (Z.eqb_spec q p); (reflexivity || lia).
Qed.

Lemma testbit_shl8_bit (x i p q : Z) :
  0 ≤ i → 0 ≤ q < 8 →
  Z.testbit (shl8 (Z.land (Z.shiftr x i) 1) p) q = Z.testbit x i && (q =? p).
Proof.
  intros Hi Hq. rewrite testbit_shl8, orb_false_r by assumption.
  rewrite Z.land_spec, testbit_one.
  destruct (Z.eqb_spec (q - p) 0) as [Hz | Hnz], (Z.eqb_spec q p);
    rewrite ?andb_false_r; try lia.
  rewrite Hz, Z.shiftr_spec by lia. by rewrite Z.add_0_l.
Qed.

Lemma testbit_shl8_bit0 (x p q : Z) :
  0 ≤ q < 8 → Z.testbit (shl8 (Z.land x 1) p) q = Z.testbit x 0 && (q =? p).
Proof.
  intros Hq. rewrite <- (Z.shiftr_0_r x) at 1. by apply testbit_shl8_bit.
Qed.

Ltac pinmap_lines H :=
  destruct H as [Hrange Hdup];
  rewrite !Forall_cons in Hrange;
  rewrite !NoDup_cons, !not_elem_of_cons in Hdup;
  destruct_and!.

Ltac frame_bits rs data :=
  unfold withRS, instructionHigh, instructionLow;
  destruct rs;
  rewrite !Z.lor_spec;
  rewrite ?(testbit_shl8_bit data) by lia;
  rewrite ?(testbit_shl8_bit0 data) by lia;
  rewrite ?testbit_shl8_one by lia;
  rewrite Z.bits_0;
  repeat match goal with
         | |- context [?a =? ?b] => destruct (Z.eqb_spec a b); try congruence
         end;
  rewrite ?andb_true_r, ?andb_false_r, ?orb_false_r, ?orb_true_r;
  try reflexivity.

Lemma instructionHigh_carries (pm : I2CPinMap) (rs : bool) (data : byte) :
  wfPinMap pm →
  frameCarries pm rs (Z.testbit data 4) (Z.testbit data 5)
    (Z.testbit data 6) (Z.testbit data 7) (withRS pm rs (instructionHigh pm data)).
Proof.
  intros Hwf. pinmap_lines Hwf. unfold frameCarries.
  repeat apply conj; frame_bits rs data.
Qed.

Lemma instructionLow_carries (pm : I2CPinMap) (rs : bool) (data : byte) :
  wfPinMap pm →
  frameCarries pm rs (Z.testbit data 0) (Z.testbit data 1)
    (Z.testbit data 2) (Z.testbit data 3) (withRS pm rs (instructionLow pm data)).
Proof.
  intros Hwf. pinmap_lines Hwf. unfold frameCarries.
  repeat apply conj; frame_bits rs data.
Qed.

Lemma enable_high_bits (pm : I2CPinMap) (frame : byte) (q : Z) :
  0 ≤ EN pm < 8 → 0 ≤ q →
  Z.testbit (Z.lor frame (shl8 0x01 (EN pm))) q = Z.testbit frame q || (q =? EN pm).
Proof.
  intros Hen Hq. rewrite Z.lor_spec. f_equal.
  destruct (Z.lt_ge_cases q 8).
  - by apply testbit_shl8_one.
  - rewrite testbit_shl8_high by assumption.
    destruct (Z.eqb_spec q (EN pm)); [lia | reflexivity].
Qed.

(** C1, as the code has it.  [Write] sends six bytes to the output register
    0x13, each after the pulse delay: the high-nibble frame, the same frame
    OR'd with the EN bit, the frame again, then the same three for the
    low-nibble frame; the frames and their order depend on [rs], [data] and
    the pin map only.  All six are written, followed by the write delay and a
    [nil] result, when the bus accepts each of them.  When the bus refuses one
    of them, [Write] returns that error at once: the bytes before it and the
    refused one have been written, the ones after it have not.  On a pin map
    whose six lines sit on different bits of the register, the high frame
    carries bits 4..7 of [data] on D4..D7 and the low frame bits 0..3, both
    carry [rs] on RS with EN low, and OR-ing the EN bit in sets EN and changes
    no other bit. *)
Theorem I2CConnection_Write_six_frames
    (conn : I2CConnection) (rs : bool) (data : byte) (w : World) :
  let pm := PinMap conn in
  let hi := withRS pm rs (instructionHigh pm data) in
  let lo := withRS pm rs (instructionLow pm data) in
  let en := shl8 0x01 (EN pm) in
  let six := [hi; Z.lor hi en; hi; lo; Z.lor lo en; lo] in
  (allWritesOk (I2C conn) (Addr conn) w six →
     ∃ w', I2CConnection_Write conn rs data w = (w', None)
           ∧ w' = w ++ pulseLog (Addr conn) six ++ [EvSleep writeDelay]
           ∧ busWrites w' = busWrites w ++ ((λ b, (Addr conn, 0x13, b)) <$> six))
  ∧ (∀ pre b post e,
       six = pre ++ b :: post →
       allWritesOk (I2C conn) (Addr conn) w pre →
       writeByteToRegResult (I2C conn)
         (w ++ pulseLog (Addr conn) pre ++ [EvSleep pulseDelay]) (Addr conn) 0x13 b
         = Some e →
       ∃ w', I2CConnection_Write conn rs data w = (w', Some e)
             ∧ w' = w ++ pulseLog (Addr conn) pre
                      ++ [EvSleep pulseDelay; EvWriteByteToReg (Addr conn) 0x13 b]
             ∧ busWrites w' = busWrites w ++ ((λ b, (Addr conn, 0x13, b)) <$> (pre ++ [b])))
  ∧ (wfPinMap pm →
       frameCarries pm rs (Z.testbit data 4) (Z.testbit data 5)
         (Z.testbit data 6) (Z.testbit data 7) hi
       ∧ frameCarries pm rs (Z.testbit data 0) (Z.testbit data 1)
           (Z.testbit data 2) (Z.testbit data 3) lo
       ∧ ∀ frame q, 0 ≤ q →
           Z.testbit (Z.lor frame en) q = Z.testbit frame q || (q =? EN pm)).
Proof.
  intros pm hi lo en six. split; [| split].
  - intros Hok. eexists. split; [| split; [reflexivity |]].
    + rewrite Write_flat. change (sixFrames (PinMap conn) rs data) with six.
      rewrite (forEach_pulse_ok _ _ _ _ Hok). unfold bind, Sleep, ret.
      by rewrite <- app_assoc.
    + by rewrite !busWrites_app, busWrites_pulseLog, app_nil_r.
  - intros pre b post e Hsplit Hok Hfail. eexists. split; [| split; [reflexivity |]].
    + rewrite Write_flat. change (sixFrames (PinMap conn) rs data) with six.
      rewrite Hsplit. by apply forEach_pulse_fail.
    + rewrite !busWrites_app, busWrites_pulseLog, fmap_app. reflexivity.
  - intros Hwf. split; [by apply instructionHigh_carries |].
    split; [by apply instructionLow_carries |].
    intros frame q Hq. apply enable_high_bits; [| assumption].
    destruct Hwf as [Hrange _]. rewrite !Forall_cons in Hrange. tauto.
Qed.

(** The worked example: data 0x41 with RS set on the sample pin map, over a
    bus that accepts every write. *)
Lemma I2CConnection_Write_six_frames_witness :
  (∃ w', I2CConnection_Write (sampleConn sampleBusOk) true 0x41 [] = (w', None)
         ∧ busWrites w' =
             [(0x20, 0x13, 0x88); (0x20, 0x13, 0xA8); (0x20, 0x13, 0x88);
              (0x20, 0x13, 0x82); (0x20, 0x13, 0xA2); (0x20, 0x13, 0x82)])
  ∧ frameCarries samplePinMap true false false true false 0x88
  ∧ frameCarries samplePinMap true true false false false 0x82.
Proof.
  destruct (I2CConnection_Write_six_frames (sampleConn sampleBusOk) true 0x41 [])
    as (Hok & _ & Hbits).
  split.
  - destruct Hok as (w' & Hrun & _ & Hbus).
    + by apply allWritesOk_of_never_failing.
    + exists w'. split; [exact Hrun | exact Hbus].
  - assert (wfPinMap samplePinMap) as Hwf.
    { split; [repeat constructor; simpl; lia |].
      apply (bool_decide_unpack _). by vm_compute. }
    destruct (Hbits Hwf) as (Hhi & Hlo & _).
    split; [exact Hhi | exact Hlo].
Defined.

(** C1 as it is worded fails on a bus that refuses its first write: one
    register write is issued, not six. *)
Lemma I2CConnection_Write_stops_on_refusal :
  I2CConnection_Write (sampleConn sampleBusDown) true 0x41 [] =
    ([EvSleep pulseDelay; EvWriteByteToReg 0x20 0x13 0x88], Some (IOErr "no ack"))
  ∧ busWrites (I2CConnection_Write (sampleConn sampleBusDown) true 0x41 []).1 =
      [(0x20, 0x13, 0x88)].
Proof. split; reflexivity. Qed.

End I2CConnectionProperties.

(* ===================================================================== *)
(** ** Properties of the controller                                       *)
(* ===================================================================== *)

Section ControllerProperties.

Import CharLCD.
Local Open Scope lcd_scope.

(** *** Cursor positioning *)

(** On any connection, a row above 3 is handled as row 3. *)
Lemma SetCursor_row_above_3 {C} `{Connection C}
    (hd : ADAFRUIT_CHARLCD C) (col row : Z) :
  3 < row → SetCursor hd col row = SetCursor hd col 3.
Proof.
  intros Hrow. unfold SetCursor, lcdRowOffset.
  destruct (Z.ltb_spec 3 row); [reflexivity | lia].
Qed.

(** On any connection, a negative row ends in the panic of the index
    expression, before anything is transmitted. *)
Lemma SetCursor_negative_row {C} `{Connection C}
    (hd : ADAFRUIT_CHARLCD C) (col row : Z) (w : World) :
  row < 0 → SetCursor hd col row w = (w, Panicked).
Proof.
  intros Hrow. unfold SetCursor, lcdRowOffset.
  destruct (Z.ltb_spec 3 row); [lia |].
  destruct row; (lia || reflexivity).
Qed.

Lemma rowAt_in_range (a : RowAddress) (i : Z) :
  0 ≤ i ≤ 3 → ∃ base, rowAt a i = Some base.
Proof.
  intros Hi.
  assert (i = 0 ∨ i = 1 ∨ i = 2 ∨ i = 3) as [-> | [-> | [-> | ->]]] by lia;
    simpl; eauto.
Qed.

(** C2, as the code has it.  For a row that is not negative, [SetCursor]
    sends one instruction: the opcode 0x80 OR'd with the 8-bit sum of the low
    byte of [col] and the base address of row [min row 3]; it returns what
    that write returns and does not panic.  For a row above 3 it does exactly
    what it does for row 3. *)
Theorem SetCursor_clamps_high_rows
    (hd : ADAFRUIT_CHARLCD OpaqueConnection) (col row : Z) (w : World) :
  0 ≤ row →
  (∃ base,
     rowAt (rowAddr hd) (Z.min row 3) = Some base
     ∧ SetCursor hd col row w =
         (w ++ [EvWrite false (Z.lor lcdSetDDRamAddr (add8 (byteOfInt col) base))],
          Returned (answer (conn hd) w)))
  ∧ (3 < row → SetCursor hd col row w = SetCursor hd col 3 w).
Proof.
  intros Hrow. split.
  - destruct (rowAt_in_range (rowAddr hd) (Z.min row 3)) as [base Hbase]; [lia |].
    exists base. split; [exact Hbase |].
    unfold SetCursor, lcdRowOffset.
    replace (if 3 <? row then 3 else row) with (Z.min row 3)
      by (destruct (Z.ltb_spec 3 row); lia).
    rewrite Hbase. reflexivity.
  - intros Hhigh. by rewrite SetCursor_row_above_3.
Qed.

(** Column 3 of row 7 on a 16-column display lands on row 3: 0x80 | 0x53. *)
Lemma SetCursor_clamps_high_rows_witness :
  SetCursor (sampleLCD sampleLinkOk) 3 7 [] = ([EvWrite false 0xD3], Returned None)
  ∧ SetCursor (sampleLCD sampleLinkOk) 3 7 [] = SetCursor (sampleLCD sampleLinkOk) 3 3 [].
Proof.
  destruct (SetCursor_clamps_high_rows (sampleLCD sampleLinkOk) 3 7 [])
    as [(base & Hbase & Hrun) Hsame]; [lia |].
  split; [| apply Hsame; lia].
  rewrite Hrun. injection Hbase as <-. reflexivity.
Defined.

(** C2 as it is worded fails for a negative row: nothing is transmitted and
    the call does not return, whereas row 0 sends the address of row 0. *)
Lemma SetCursor_negative_row_panics :
  SetCursor (sampleLCD sampleLinkOk) 3 (-1) [] = ([], Panicked)
  ∧ SetCursor (sampleLCD sampleLinkOk) 3 0 [] = ([EvWrite false 0x83], Returned None).
Proof. split; reflexivity. Qed.

(** *** Mode setters and getters *)

Lemma land_lor_same (e k : Z) : Z.land (Z.lor e k) k = k.
Proof.
  apply Z.bits_inj'. intros n _. rewrite Z.land_spec, Z.lor_spec.
  destruct (Z.testbit e n), (Z.testbit k n); reflexivity.
Qed.

Lemma land_not8_same (e k : Z) : Z.land k 255 = k → Z.land (Z.land e (not8 k)) k = 0.
Proof.
  intros Hk. apply Z.bits_inj'. intros n _.
  apply (f_equal (λ z, Z.testbit z n)) in Hk. rewrite Z.land_spec in Hk.
  unfold not8. rewrite !Z.land_spec, Z.lxor_spec, Z.bits_0.
  destruct (Z.testbit e n), (Z.testbit k n), (Z.testbit 255 n);
    (reflexivity || discriminate).
Qed.

Lemma flag_set_reads_true (e k : Z) : 0 < k → (0 <? Z.land (Z.lor e k) k) = true.
Proof. intros Hk. rewrite land_lor_same. by apply Z.ltb_lt. Qed.

Lemma flag_cleared_reads_false (e k : Z) :
  Z.land k 255 = k → (0 <? Z.land (Z.land e (not8 k)) k) = false.
Proof. intros Hk. by rewrite land_not8_same. Qed.

(** X9.  The seven getters that test the flag their setters write report
    what the last setter of the flag specified. *)
Lemma getters_report_setters {C} (hd : ADAFRUIT_CHARLCD C) :
  EntryIncrementEnabled (EntryIncrement hd) = true
  ∧ EntryIncrementEnabled (EntryDecrement hd) = false
  ∧ EntryShiftEnabled (EntryShiftOn hd) = true
  ∧ EntryShiftEnabled (EntryShiftOff hd) = false
  ∧ DisplayEnabled (DisplayOn hd) = true
  ∧ DisplayEnabled (DisplayOff hd) = false
  ∧ CursorEnabled (CursorOn hd) = true
  ∧ CursorEnabled (CursorOff hd) = false
  ∧ BlinkEnabled (BlinkOn hd) = true
  ∧ BlinkEnabled (BlinkOff hd) = false
  ∧ EightBitModeEnabled (EightBitMode hd) = true
  ∧ EightBitModeEnabled (FourBitMode hd) = false
  ∧ TwoLineEnabled (TwoLine hd) = true
  ∧ TwoLineEnabled (OneLine hd) = false.
Proof.
  repeat apply conj;
    first [ by apply flag_set_reads_true | by apply flag_cleared_reads_false ].
Qed.

(** X10.  Running a setter twice is running it once. *)
Lemma setters_idempotent {C} (hd : ADAFRUIT_CHARLCD C) :
  Forall (λ m : ModeSetter C, m (m hd) = m hd)
    [EntryDecrement; EntryIncrement; EntryShiftOff; EntryShiftOn;
     DisplayOff; DisplayOn; CursorOff; CursorOn; BlinkOff; BlinkOn;
     FourBitMode; EightBitMode; OneLine; TwoLine; Dots5x8; Dots5x10].
Proof.
  repeat apply Forall_cons_2; try apply Forall_nil_2;
    cbv [EntryDecrement EntryIncrement EntryShiftOff EntryShiftOn
         DisplayOff DisplayOn CursorOff CursorOn BlinkOff BlinkOn
         FourBitMode EightBitMode OneLine TwoLine Dots5x8 Dots5x10
         with_eMode with_dMode with_fMode];
    cbn [conn eMode dMode fMode rowAddr]; f_equal;
    first [ by rewrite <- Z.lor_assoc, Z.lor_diag
          | by rewrite <- Z.land_assoc, Z.land_diag ].
Qed.

(** Clearing one flag and setting another of the same field gives the same
    field in either order. *)
Lemma clear_then_set_comm (e a b : Z) :
  Z.land a b = 0 → Z.land a 255 = a →
  Z.lor (Z.land e (not8 b)) a = Z.land (Z.lor e a) (not8 b).
Proof.
  intros Hab Ha. apply Z.bits_inj'. intros n _.
  apply (f_equal (λ z, Z.testbit z n)) in Hab, Ha.
  rewrite Z.land_spec in Hab, Ha. rewrite (Z.bits_0 n) in Hab.
  unfold not8. rewrite !Z.lor_spec, !Z.land_spec, Z.lor_spec, Z.lxor_spec.
  destruct (Z.testbit e n), (Z.testbit a n), (Z.testbit b n), (Z.testbit 255 n);
    (reflexivity || discriminate).
Qed.

(** X11.  Two setters of different flags of one field give the same
    controller in either order. *)
Lemma setters_of_different_flags_commute {C} (hd : ADAFRUIT_CHARLCD C) :
  Forall (λ p : ModeSetter C * ModeSetter C, p.1 (p.2 hd) = p.2 (p.1 hd))
    [(EntryIncrement, EntryShiftOn); (EntryIncrement, EntryShiftOff);
     (EntryDecrement, EntryShiftOn); (EntryDecrement, EntryShiftOff);
     (DisplayOn, CursorOn); (DisplayOn, CursorOff);
     (DisplayOff, CursorOn); (DisplayOff, CursorOff);
     (DisplayOn, BlinkOn); (DisplayOn, BlinkOff);
     (DisplayOff, BlinkOn); (DisplayOff, BlinkOff);
     (CursorOn, BlinkOn); (CursorOn, BlinkOff);
     (CursorOff, BlinkOn); (CursorOff, BlinkOff);
     (EightBitMode, TwoLine); (EightBitMode, OneLine);
     (FourBitMode, TwoLine); (FourBitMode, OneLine);
     (EightBitMode, Dots5x10); (EightBitMode, Dots5x8);
     (FourBitMode, Dots5x10); (FourBitMode, Dots5x8);
     (TwoLine, Dots5x10); (TwoLine, Dots5x8);
     (OneLine, Dots5x10); (OneLine, Dots5x8)].
Proof.
  repeat apply Forall_cons_2; try apply Forall_nil_2;
    cbv [EntryDecrement EntryIncrement EntryShiftOff EntryShiftOn
         DisplayOff DisplayOn CursorOff CursorOn BlinkOff BlinkOn
         FourBitMode EightBitMode OneLine TwoLine Dots5x8 Dots5x10
         with_eMode with_dMode with_fMode fst snd];
    cbn [conn eMode dMode fMode rowAddr]; f_equal;
    first [ by rewrite <- !Z.lor_assoc
          | by rewrite <- !Z.land_assoc
          | by apply clear_then_set_comm
          | by symmetry; apply clear_then_set_comm ].
Qed.

(** The two setters of one flag do not commute: the later one decides. *)
Lemma opposite_setters_last_wins :
  eMode (EntryIncrement (EntryDecrement (sampleLCD sampleLinkOk))) = 0x02
  ∧ eMode (EntryDecrement (EntryIncrement (sampleLCD sampleLinkOk))) = 0x00.
Proof. split; reflexivity. Qed.

(** C3, where the code departs from it.  [Dots5x10Enabled] masks the function
    mode with [lcd5x8Dots], which is 0, so it answers [false] for every
    controller.  On the sample controller [SetMode(Dots5x10)] sets the flag
    0x04 in the function mode and sends it (0x20 | 0x0C), and the getter
    still answers [false]. *)
Theorem Dots5x10Enabled_always_false :
  (∀ C (hd : ADAFRUIT_CHARLCD C), Dots5x10Enabled hd = false)
  ∧ (∃ w hd',
       SetMode [Dots5x10] (sampleLCD sampleLinkOk) [] = (w, (hd', None))
       ∧ instructionsSent w = [0x0C; 0x2C; 0x06]
       ∧ Z.land (fMode hd') lcd5x10Dots = lcd5x10Dots
       ∧ Dots5x10Enabled hd' = false).
Proof.
  split.
  - intros C hd. unfold Dots5x10Enabled, lcd5x8Dots. by rewrite Z.land_0_r.
  - eexists _, _. repeat split.
Qed.

(** *** SetMode and Clear *)

(** Unfolds the three mode writes of [SetMode] on an opaque connection. *)
Ltac unfold_mode_writes :=
  unfold setDisplayMode, setFunctionMode, setEntryMode, WriteInstruction;
  cbn [forEach Write OpaqueConnection_Connection];
  unfold call, bind, ret.

(** C4.  [SetMode] runs the setters, in order, on the controller, and then
    writes the display byte (0x08 | dMode), the function byte (0x20 | fMode)
    and the entry byte (0x04 | eMode) of the controller so updated, in this
    order.  The first write that fails ends the call with its error and the
    later bytes are not written.  In every case the controller the call
    leaves behind is the one the setters produced. *)
Theorem SetMode_sends_display_function_entry
    (modes : list (ModeSetter OpaqueConnection))
    (hd : ADAFRUIT_CHARLCD OpaqueConnection) (w : World) :
  let hd' := fold_left (λ h m, m h) modes hd in
  let d := EvWrite false (Z.lor 0x08 (dMode hd')) in
  let f := EvWrite false (Z.lor 0x20 (fMode hd')) in
  let e := EvWrite false (Z.lor 0x04 (eMode hd')) in
  SetMode modes hd w =
    match answer (conn hd') w with
    | Some err => (w ++ [d], (hd', Some err))
    | None =>
      match answer (conn hd') (w ++ [d]) with
      | Some err => (w ++ [d; f], (hd', Some err))
      | None => (w ++ [d; f; e], (hd', answer (conn hd') (w ++ [d; f])))
      end
    end.
Proof.
  intros hd' d f e.
  unfold SetMode, applyModes. fold hd'. unfold_mode_writes.
  change (EvWrite false (Z.lor lcdSetDisplayMode (dMode hd'))) with d.
  change (EvWrite false (Z.lor lcdSetFunctionMode (fMode hd'))) with f.
  change (EvWrite false (Z.lor lcdSetEntryMode (eMode hd'))) with e.
  destruct (answer (conn hd') w) as [err|]; [reflexivity |].
  destruct (answer (conn hd') (w ++ [d])) as [err|];
    [by rewrite <- app_assoc |].
  rewrite <- !app_assoc. simpl.
  by destruct (answer (conn hd') (w ++ [d; f])).
Qed.

(** [SetMode(CursorOn, Dots5x10)] on a link that accepts one instruction and
    refuses the next: the display byte and the function byte are written, the
    entry byte is not, and both flags stay set. *)
Lemma SetMode_sends_display_function_entry_witness :
  ∃ w hd',
    SetMode [CursorOn; Dots5x10] (sampleLCD (sampleLinkFailingAfter 1)) []
      = (w, (hd', Some (IOErr "link down")))
    ∧ instructionsSent w = [0x0E; 0x2C]
    ∧ dMode hd' = 0x06 ∧ fMode hd' = 0x0C.
Proof.
  eexists _, _. split.
  - apply (SetMode_sends_display_function_entry
             [CursorOn; Dots5x10] (sampleLCD (sampleLinkFailingAfter 1)) []).
  - repeat split.
Defined.

(** C5, as the code has it.  [Clear] writes the clear-display instruction
    0x01.  If that write fails, [Clear] returns its error and writes nothing
    else.  If it succeeds, [Clear] waits the clear delay and runs [SetMode]
    without setters: the display, function and entry bytes of the mode held
    before the call are written in this order, up to the first of them that
    fails, whose error is returned.  The controller is the same after the
    call as before it in every case. *)
Theorem Clear_resends_modes (hd : ADAFRUIT_CHARLCD OpaqueConnection) (w : World) :
  let d := EvWrite false (Z.lor 0x08 (dMode hd)) in
  let f := EvWrite false (Z.lor 0x20 (fMode hd)) in
  let e := EvWrite false (Z.lor 0x04 (eMode hd)) in
  let w1 := w ++ [EvWrite false 0x01] in
  let w2 := w1 ++ [EvSleep clearDelay] in
  Clear hd w =
    match answer (conn hd) w with
    | Some err => (w1, (hd, Some err))
    | None =>
      match answer (conn hd) w2 with
      | Some err => (w2 ++ [d], (hd, Some err))
      | None =>
        match answer (conn hd) (w2 ++ [d]) with
        | Some err => (w2 ++ [d; f], (hd, Some err))
        | None => (w2 ++ [d; f; e], (hd, answer (conn hd) (w2 ++ [d; f])))
        end
      end
    end.
Proof.
  intros d f e w1 w2.
  unfold Clear, WriteInstruction.
  cbn [Write OpaqueConnection_Connection]. unfold call, bind at 1, ret.
  change (w ++ [EvWrite false lcdClearDisplay]) with w1.
  destruct (answer (conn hd) w) as [err|]; [reflexivity |].
  unfold bind at 1, Sleep. fold w2.
  unfold SetMode, applyModes. cbn [fold_left]. unfold_mode_writes.
  change (EvWrite false (Z.lor lcdSetDisplayMode (dMode hd))) with d.
  change (EvWrite false (Z.lor lcdSetFunctionMode (fMode hd))) with f.
  change (EvWrite false (Z.lor lcdSetEntryMode (eMode hd))) with e.
  destruct (answer (conn hd) w2) as [err|]; [reflexivity |].
  destruct (answer (conn hd) (w2 ++ [d])) as [err|];
    [by rewrite <- app_assoc |].
  rewrite <- !(app_assoc w2). simpl.
  by destruct (answer (conn hd) (w2 ++ [d; f])).
Qed.

(** A full run on a link that accepts everything: 0x01, the delay, then the
    three mode bytes of the sample controller. *)
Lemma Clear_resends_modes_witness :
  Clear (sampleLCD sampleLinkOk) [] =
    ([EvWrite false 0x01; EvSleep clearDelay;
      EvWrite false 0x0C; EvWrite false 0x28; EvWrite false 0x06],
     (sampleLCD sampleLinkOk, None)).
Proof. apply (Clear_resends_modes (sampleLCD sampleLinkOk) []). Defined.

(** C5 as it is worded fails when the clear-display write succeeds and the
    display-mode write after it fails: the function and entry bytes are not
    written. *)
Lemma Clear_stops_at_failed_mode_write :
  Clear (sampleLCD (sampleLinkFailingAfter 1)) [] =
    ([EvWrite false 0x01; EvSleep clearDelay; EvWrite false 0x0C],
     (sampleLCD (sampleLinkFailingAfter 1), Some (IOErr "link down")))
  ∧ instructionsSent (Clear (sampleLCD (sampleLinkFailingAfter 1)) []).1 = [0x01; 0x0C].
Proof. split; reflexivity. Qed.

End ControllerProperties.

(* ===================================================================== *)
(** ** Further properties of the pin registry and the GPIO driver         *)
(* ===================================================================== *)

Section EmbdFurtherProperties.

Import Embd.

(** X1.  In a registry whose descriptors have pairwise different numbers,
    every descriptor is found by its own number. *)
Theorem Lookup_by_number_finds_descriptor (m : PinMap) (pd : PinDesc) :
  NoDup (N <$> m) → pd ∈ m → Lookup m (KeyInt (N pd)) = Some pd.
Proof.
  simpl. induction m as [|q rest IH]; intros Hdup Hin; [by inversion Hin |].
  rewrite fmap_cons, NoDup_cons in Hdup. destruct Hdup as [Hq Hrest].
  simpl. destruct (Z.eqb_spec (N q) (N pd)) as [Heq | Hne].
  - apply elem_of_cons in Hin as [-> | Hin]; [reflexivity |].
    exfalso. apply Hq. rewrite Heq. apply list_elem_of_fmap. by exists pd.
  - apply elem_of_cons in Hin as [-> | Hin]; [congruence |]. by apply IH.
Qed.

Lemma Lookup_by_number_finds_descriptor_witness :
  Lookup sampleBoard (KeyInt 7) = Some {| N := 7; IDs := ["AIN0"]; Caps := CapNormal |}.
Proof.
  apply (Lookup_by_number_finds_descriptor sampleBoard
           {| N := 7; IDs := ["AIN0"]; Caps := CapNormal |}).
  - apply (bool_decide_unpack _). by vm_compute.
  - set_solver.
Defined.

(** X2.  In a registry in which no alias string occurs twice, every
    descriptor is found by each of its aliases. *)
Theorem Lookup_by_alias_finds_descriptor (m : PinMap) (pd : PinDesc) (s : string) :
  NoDup (concat (IDs <$> m)) → pd ∈ m → s ∈ IDs pd →
  Lookup m (KeyString s) = Some pd.
Proof.
  simpl. induction m as [|q rest IH]; intros Hdup Hin Hs; [by inversion Hin |].
  rewrite fmap_cons in Hdup. simpl in Hdup.
  apply NoDup_app in Hdup as (_ & Hcross & Hrest).
  simpl. destruct (idsMatch (IDs q) s) eqn:Hm.
  - apply idsMatch_elem_of in Hm.
    apply elem_of_cons in Hin as [-> | Hin]; [reflexivity |].
    exfalso. apply (Hcross s Hm).
    apply list_elem_of_In, in_concat. exists (IDs pd).
    split; [| by apply list_elem_of_In].
    apply list_elem_of_In, list_elem_of_fmap. by exists pd.
  - apply elem_of_cons in Hin as [-> | Hin]; [| by apply IH].
    apply idsMatch_elem_of in Hs. congruence.
Qed.

Lemma Lookup_by_alias_finds_descriptor_witness :
  Lookup sampleBoard (KeyString "GPIO_10")
    = Some {| N := 10; IDs := ["P8_31"; "GPIO_10"]; Caps := Z.lor CapNormal CapUART |}.
Proof.
  apply (Lookup_by_alias_finds_descriptor sampleBoard
           {| N := 10; IDs := ["P8_31"; "GPIO_10"]; Caps := Z.lor CapNormal CapUART |}).
  - apply (bool_decide_unpack _). by vm_compute.
  - set_solver.
  - set_solver.
Defined.

(** X3.  Looking a key up in two registries laid end to end answers from the
    first one when it has a match and from the second one otherwise. *)
Theorem Lookup_app (m1 m2 : PinMap) (k : Key) :
  Lookup (m1 ++ m2) k =
    match Lookup m1 k with
    | Some pd => Some pd
    | None => Lookup m2 k
    end.
Proof.
  destruct k as [n | s | dyn]; simpl; [| | reflexivity].
  - induction m1 as [|q rest IH]; simpl; [reflexivity |].
    by destruct (N q =? n).
  - induction m1 as [|q rest IH]; simpl; [reflexivity |].
    by destruct (idsMatch (IDs q) s).
Qed.

(** X4.  Whatever its outcome, [digitalPin] leaves the registry of the
    driver alone, keeps every entry the map held (none is removed or
    replaced), and only appends to the log. *)
Theorem digitalPin_keeps_entries (io : gpioDriver) (key : Key) (w : World) :
  let res := gpioDriver_digitalPin io key w in
  pinMap res.1.1 = pinMap io
  ∧ initializedPins io ⊆ initializedPins res.1.1
  ∧ w `prefix_of` res.1.2.
Proof.
  unfold gpioDriver_digitalPin.
  destruct (lookupKey io key) as [pd|]; [| by simpl].
  destruct (initializedPins io !! N pd) as [[held | kind ref]|] eqn:Hp;
    [by simpl.. |].
  destruct (Z.land (Caps pd) CapNormal =? 0); [by simpl |].
  simpl. split; [reflexivity |]. split; [by apply insert_subseteq |].
  destruct (Caps pd =? CapNormal);
    [by apply prefix_app_r | rewrite <- app_assoc; by apply prefix_app_r].
Qed.

(** A successful acquisition leaves the handle it returns in the map, under
    the number of the descriptor the key resolves to. *)
Lemma digitalPin_success_entry io key w io1 w1 dp :
  gpioDriver_digitalPin io key w = (io1, w1, inl dp) →
  ∃ pd, lookupKey io key = Some pd
        ∧ pinMap io1 = pinMap io
        ∧ initializedPins io1 !! N pd = Some (PinDigital dp).
Proof.
  unfold gpioDriver_digitalPin.
  destruct (lookupKey io key) as [pd|]; [| discriminate].
  destruct (initializedPins io !! N pd) as [[held | kind ref]|] eqn:Hp;
    [| discriminate |].
  - intros [= <- <- <-]. by exists pd.
  - destruct (Z.land (Caps pd) CapNormal =? 0); [discriminate |].
    simpl. intros [= <- <- <-]. exists pd. simpl.
    split; [reflexivity |]. split; [reflexivity |]. apply lookup_insert_eq.
Qed.

(** X5.  Two keys that resolve to descriptors of the same pin number (the
    number and an alias, or two aliases) share one handle: once the first key
    has been acquired, acquiring the second returns the same handle and
    changes neither the driver nor the log. *)
Theorem digitalPin_keys_of_one_pin_share_handle
    (io io1 : gpioDriver) (k1 k2 : Key) (pd2 : PinDesc)
    (w w1 : World) (dp : digitalPin) :
  gpioDriver_digitalPin io k1 w = (io1, w1, inl dp) →
  lookupKey io k2 = Some pd2 →
  (∀ pd1, lookupKey io k1 = Some pd1 → N pd1 = N pd2) →
  gpioDriver_digitalPin io1 k2 w1 = (io1, w1, inl dp).
Proof.
  intros Hfirst Hk2 Hsame.
  destruct (digitalPin_success_entry _ _ _ _ _ _ Hfirst) as (pd1 & Hk1 & Hpm & Hentry).
  apply (digitalPin_held_digital _ _ _ pd2).
  - unfold lookupKey in *. by rewrite Hpm.
  - by rewrite <- (Hsame pd1 Hk1).
Qed.

Lemma digitalPin_keys_of_one_pin_share_handle_witness :
  ∃ io1 w1 dp,
    gpioDriver_digitalPin (newGPIODriver sampleBoard) (KeyInt 10) [] = (io1, w1, inl dp)
    ∧ gpioDriver_digitalPin io1 (KeyString "P8_31") w1 = (io1, w1, inl dp)
    ∧ opens w1 = [10].
Proof.
  eexists _, _, _. split; [reflexivity |]. split; [| reflexivity].
  eapply (digitalPin_keys_of_one_pin_share_handle
            (newGPIODriver sampleBoard) _ (KeyInt 10) (KeyString "P8_31")).
  - reflexivity.
  - reflexivity.
  - by intros pd1 [= <-].
Defined.

Lemma digitalPin_keeps_opensMatchMap io key w :
  opensMatchMap io w →
  let res := gpioDriver_digitalPin io key w in
  opensMatchMap res.1.1 res.1.2 ∧ ∀ k, res.2 ≠ inr (ErrModeConflict k).
Proof.
  intros (Hkind & Hdup & Hdom).
  destruct (lookupKey io key) as [pd|] eqn:Hk;
    [| unfold gpioDriver_digitalPin; rewrite Hk; by simpl].
  destruct (initializedPins io !! N pd) as [[held | kind ref]|] eqn:Hp.
  - rewrite (digitalPin_held_digital _ _ _ _ _ Hk Hp). by simpl.
  - destruct (Hkind _ _ Hp) as [dp Hdp]. discriminate.
  - destruct (Z.eqb_spec (Z.land (Caps pd) CapNormal) 0) as [Hz | Hnz].
    { unfold gpioDriver_digitalPin. rewrite Hk, Hp.
      apply Z.eqb_eq in Hz. rewrite Hz. by simpl. }
    rewrite (digitalPin_fresh _ _ _ _ Hk Hp Hnz). cbn [fst snd initializedPins].
    split; [| discriminate].
    assert (opens ((if Caps pd =? CapNormal then w else w ++ [EvInfo key])
                   ++ [EvOpen (N pd)]) = opens w ++ [N pd]) as Hopens.
    { rewrite opens_app. destruct (Caps pd =? CapNormal); [reflexivity |].
      rewrite opens_app. simpl. by rewrite app_nil_r. }
    unfold opensMatchMap. cbn [initializedPins]. rewrite Hopens.
    split; [| split].
    + intros n p. destruct (decide (n = N pd)) as [-> | Hne].
      * rewrite lookup_insert_eq. intros [= <-]. by eexists.
      * rewrite lookup_insert_ne by done. apply Hkind.
    + apply NoDup_app. split; [assumption |]. split; [| apply NoDup_singleton].
      intros n Hn. apply Hdom in Hn. intros Hn'.
      apply list_elem_of_singleton in Hn' as ->. rewrite Hp in Hn.
      by destruct Hn.
    + intros n. rewrite elem_of_app, list_elem_of_singleton, Hdom.
      destruct (decide (n = N pd)) as [-> | Hne].
      * rewrite lookup_insert_eq. split; [by eexists | by right].
      * rewrite lookup_insert_ne by done. split; [intros [? | ?]; done | by left].
Qed.

Lemma acquireAll_keeps_opensMatchMap keys io w :
  opensMatchMap io w →
  let res := acquireAll keys io w in
  opensMatchMap res.1.1 res.1.2
  ∧ Forall (λ r, ∀ k, r ≠ inr (ErrModeConflict k)) res.2.
Proof.
  revert io w. induction keys as [|key rest IH]; intros io w Hinv; simpl.
  - split; [assumption | constructor].
  - destruct (digitalPin_keeps_opensMatchMap io key w Hinv) as [Hinv1 Hr].
    destruct (gpioDriver_digitalPin io key w) as [[io1 w1] r]. simpl in *.
    destruct (IH io1 w1 Hinv1) as [Hinv2 Hrs].
    destruct (acquireAll rest io1 w1) as [[io2 w2] rs]. simpl in *.
    split; [assumption | by constructor].
Qed.

(** X6.  On a driver that starts empty and is used through [digitalPin]
    only, however many keys are acquired and in whatever order: no pin is
    opened twice, the pins opened are exactly the pins the map holds, every
    handle in the map is a digital-pin handle, and no acquisition ends in the
    mode conflict. *)
Theorem acquireAll_opens_each_pin_once (pm : PinMap) (keys : list Key) :
  let res := acquireAll keys (newGPIODriver pm) [] in
  opensMatchMap res.1.1 res.1.2
  ∧ Forall (λ r, ∀ k, r ≠ inr (ErrModeConflict k)) res.2.
Proof.
  apply acquireAll_keeps_opensMatchMap. split; [| split].
  - intros n p. simpl. by rewrite lookup_empty.
  - constructor.
  - intros n. simpl. rewrite lookup_empty. split; [by inversion 1 | by intros []].
Qed.

Section CloseFurtherProperties.

Variable pinClose : World → pin → option error.

Lemma opens_closeEvents (ps : list pin) : opens (closeEvents ps) = [].
Proof. induction ps as [|p rest IH]; [reflexivity | exact IH]. Qed.

Lemma closeLoop_prefix (ps : list pin) (w : World) :
  ∃ k, (k ≤ length ps)%nat
       ∧ (closeLoop pinClose ps w).1 = w ++ closeEvents (take k ps)
       ∧ ((closeLoop pinClose ps w).2 = None → k = length ps).
Proof.
  revert w. induction ps as [|p rest IH]; intros w; simpl.
  - exists 0%nat. by rewrite app_nil_r.
  - destruct (pinClose w p) as [err|].
    + exists 1%nat. simpl. split; [lia |]. by split.
    + destruct (IH (w ++ [EvClose p])) as (k & Hk & Hlog & Hall).
      exists (S k). split; [lia |]. split.
      * rewrite Hlog. by rewrite <- app_assoc.
      * intros Hnone. by rewrite (Hall Hnone).
Qed.

Lemma Close_prefix_aux (order : list (Z * pin)) (io : gpioDriver) (w : World) :
  (Close pinClose order io w).1.1 = io
  ∧ opens (Close pinClose order io w).1.2 = opens w.
Proof.
  unfold Close.
  destruct (closeLoop_prefix order.*2 w) as (k & _ & Hlog & _).
  destruct (closeLoop pinClose order.*2 w) as [w' r]. simpl in *.
  split; [reflexivity |].
  by rewrite Hlog, opens_app, opens_closeEvents, app_nil_r.
Qed.

(** X7.  Whatever the pin transport answers and whatever order the map is
    visited in, [Close] leaves the driver as it was, opens no pin, and asks
    the first [k] handles of the iteration order to close, each once, for
    some [k]; [k] is the number of handles when [nil] is returned. *)
Theorem Close_closes_a_prefix (order : list (Z * pin)) (io : gpioDriver) (w : World) :
  let res := Close pinClose order io w in
  res.1.1 = io
  ∧ opens res.1.2 = opens w
  ∧ ∃ k, (k ≤ length order)%nat
         ∧ res.1.2 = w ++ closeEvents (take k order.*2)
         ∧ (res.2 = None → k = length order).
Proof.
  unfold Close.
  destruct (closeLoop_prefix order.*2 w) as (k & Hk & Hlog & Hall).
  destruct (closeLoop pinClose order.*2 w) as [w' r]. simpl in *.
  split; [reflexivity |]. split.
  - by rewrite Hlog, opens_app, opens_closeEvents, app_nil_r.
  - exists k. rewrite length_fmap in Hk, Hall. by repeat split.
Qed.

(** X8.  [Close] does not forget the handles: a key whose pin held a
    digital-pin handle before [Close] still gets that handle from
    [digitalPin] afterwards, whether the closing succeeded or not, and no pin
    is opened for it. *)
Theorem digitalPin_after_Close_returns_old_handle
    (order : list (Z * pin)) (io : gpioDriver) (w : World)
    (key : Key) (pd : PinDesc) (dp : digitalPin) :
  lookupKey io key = Some pd →
  initializedPins io !! N pd = Some (PinDigital dp) →
  let closed := Close pinClose order io w in
  let again := gpioDriver_digitalPin closed.1.1 key closed.1.2 in
  again = (io, closed.1.2, inl dp) ∧ opens again.1.2 = opens w.
Proof.
  intros Hk Hp closed again.
  destruct (Close_prefix_aux order io w) as (Hio & Hopens).
  subst again. fold closed in Hio, Hopens. rewrite Hio.
  rewrite (digitalPin_held_digital _ _ _ _ _ Hk Hp). by split.
Qed.

End CloseFurtherProperties.

(** Closing the sample driver in the order 7, 10 fails at pin 7; pin 10 is
    then still handed out, with the handle it had. *)
Lemma digitalPin_after_Close_returns_old_handle_witness :
  gpioDriver_digitalPin sampleHolder (KeyInt 10) [EvClose samplePinB]
    = (sampleHolder, [EvClose samplePinB], inl {| dp_ref := 0; dp_n := 10 |}).
Proof.
  apply (digitalPin_after_Close_returns_old_handle samplePinClose
           [(7, samplePinB); (10, samplePinA)] sampleHolder [] (KeyInt 10)
           {| N := 10; IDs := ["P8_31"; "GPIO_10"]; Caps := Z.lor CapNormal CapUART |});
    reflexivity.
Defined.

End EmbdFurtherProperties.

(* ===================================================================== *)
(** ** Further properties of the controller                               *)
(* ===================================================================== *)

Section ControllerFurtherProperties.

Import CharLCD.
Local Open Scope lcd_scope.

(** A property of all bytes that is checked on each of the 256 values. *)
Lemma byte_cases (P : Z → Prop) `{∀ x, Decision (P x)} :
  bool_decide (Forall P (seqZ 0 256)) = true → ∀ x, 0 ≤ x < 256 → P x.
Proof.
  intros Hall x Hx. apply bool_decide_eq_true in Hall.
  rewrite Forall_seqZ in Hall. apply Hall. lia.
Qed.


Ltac unfold_setters :=
  cbv [EntryDecrement EntryIncrement EntryShiftOff EntryShiftOn
       DisplayOff DisplayOn CursorOff CursorOn BlinkOff BlinkOn
       FourBitMode EightBitMode OneLine TwoLine Dots5x8 Dots5x10
       with_eMode with_dMode with_fMode];
  cbn [conn eMode dMode fMode rowAddr].



(** The sixteen setters keep each mode field within its flags and leave the
    connection and the row table alone. *)
Lemma setters_keep_modesInRange {C} (hd : ADAFRUIT_CHARLCD C) (m : ModeSetter C) :
  m ∈ providedSetters → modesInRange hd →
  modesInRange (m hd) ∧ conn (m hd) = conn hd ∧ rowAddr (m hd) = rowAddr hd.
Proof.
  intros Hm (He & Hd & Hf & Hf4).
  destruct hd as [c e d f ra]. cbn [eMode dMode fMode] in *.
  assert (e = 0 ∨ e = 1 ∨ e = 2 ∨ e = 3) as Hes by lia.
  assert (d = 0 ∨ d = 1 ∨ d = 2 ∨ d = 3 ∨ d = 4 ∨ d = 5 ∨ d = 6 ∨ d = 7) as Hds by lia.
  assert (f = 0 ∨ f = 4 ∨ f = 8 ∨ f = 12 ∨ f = 16 ∨ f = 20 ∨ f = 24 ∨ f = 28)
    as Hfs by (Z.div_mod_to_equations; lia).
  unfold providedSetters, setterTable in Hm. cbn [fmap list_fmap fst] in Hm.
  repeat (apply elem_of_cons in Hm as [-> | Hm]); [.. | by inversion Hm];
    (split; [| by split]); unfold modesInRange; unfold_setters;
    (split; [| split; [| split]]); try assumption;
    first [ clear -Hes; destruct_or!; subst; by vm_compute
          | clear -Hds; destruct_or!; subst; by vm_compute
          | clear -Hfs; destruct_or!; subst; by vm_compute ].
Qed.

Lemma applyModes_keeps_modesInRange {C} (modes : list (ModeSetter C))
    (hd : ADAFRUIT_CHARLCD C) :
  Forall (λ m, m ∈ providedSetters) modes → modesInRange hd →
  modesInRange (applyModes modes hd)
  ∧ conn (applyModes modes hd) = conn hd
  ∧ rowAddr (applyModes modes hd) = rowAddr hd.
Proof.
  unfold applyModes. revert hd.
  induction modes as [|m rest IH]; intros hd Hms Hin; simpl; [done |].
  apply Forall_cons in Hms as [Hm Hrest].
  destruct (setters_keep_modesInRange hd m Hm Hin) as (Hin1 & Hc1 & Hr1).
  destruct (IH (m hd) Hrest Hin1) as (Hin2 & Hc2 & Hr2).
  split; [assumption |]. split; congruence.
Qed.

Lemma SetMode_state {C} `{Connection C} (modes : list (ModeSetter C))
    (hd : ADAFRUIT_CHARLCD C) (w : World) :
  (SetMode modes hd w).2.1 = applyModes modes hd.
Proof.
  unfold SetMode, bind, ret.
  by destruct (forEach _ _ _ w).
Qed.

(** X13.  When the mode fields hold nothing but their flags and [SetMode] is
    given setters of the package, the fields still hold nothing but their
    flags afterwards, and the three command bytes of the new state lie in
    the ranges of their commands: display 0x08..0x0F, function 0x20..0x3F,
    entry 0x04..0x07. *)
Theorem SetMode_keeps_modes_in_range {C} `{Connection C}
    (modes : list (ModeSetter C)) (hd : ADAFRUIT_CHARLCD C) (w : World) :
  Forall (λ m, m ∈ providedSetters) modes → modesInRange hd →
  let hd' := (SetMode modes hd w).2.1 in
  modesInRange hd'
  ∧ 0x08 ≤ Z.lor lcdSetDisplayMode (dMode hd') ≤ 0x0F
  ∧ 0x20 ≤ Z.lor lcdSetFunctionMode (fMode hd') ≤ 0x3F
  ∧ 0x04 ≤ Z.lor lcdSetEntryMode (eMode hd') ≤ 0x07.
Proof.
  intros Hms Hin hd'. subst hd'. rewrite SetMode_state.
  destruct (applyModes_keeps_modesInRange modes hd Hms Hin) as [Hin' _].
  split; [assumption |].
  destruct Hin' as (He & Hd & Hf & _).
  set (e := eMode _) in *. set (d := dMode _) in *. set (f := fMode _) in *.
  clearbody e d f.
  assert (∀ x, 0 ≤ x < 256 →
            (x < 8 → 8 ≤ Z.lor 8 x ≤ 15) ∧ (x < 32 → 32 ≤ Z.lor 32 x ≤ 63)
            ∧ (x < 4 → 4 ≤ Z.lor 4 x ≤ 7)) as Hbytes.
  { apply (byte_cases (λ x, (x < 8 → 8 ≤ Z.lor 8 x ≤ 15)
                            ∧ (x < 32 → 32 ≤ Z.lor 32 x ≤ 63)
                            ∧ (x < 4 → 4 ≤ Z.lor 4 x ≤ 7))).
    by vm_compute. }
  destruct (Hbytes e ltac:(lia)) as (_ & _ & Hbe).
  destruct (Hbytes d ltac:(lia)) as (Hbd & _ & _).
  destruct (Hbytes f ltac:(lia)) as (_ & Hbf & _).
  split; [apply Hbd; lia |]. split; [apply Hbf; lia | apply Hbe; lia].
Qed.

Lemma SetMode_keeps_modes_in_range_witness :
  modesInRange (SetMode [CursorOn; Dots5x10; EntryShiftOn]
                  (sampleLCD sampleLinkOk) []).2.1.
Proof.
  apply (SetMode_keeps_modes_in_range [CursorOn; Dots5x10; EntryShiftOn]
           (sampleLCD sampleLinkOk) []).
  - repeat apply Forall_cons_2; try apply Forall_nil_2;
      unfold providedSetters, setterTable; cbn [fmap list_fmap fst]; set_solver.
  - by vm_compute.
Defined.

(** X14.  Setters given to one [SetMode] call or spread over two calls leave
    the same mode fields, whatever happens on the connection in between. *)
Theorem SetMode_state_composes {C} `{Connection C}
    (ms1 ms2 : list (ModeSetter C)) (hd : ADAFRUIT_CHARLCD C) (w w' w'' : World) :
  (SetMode (ms1 ++ ms2) hd w).2.1 = (SetMode ms2 (SetMode ms1 hd w').2.1 w'').2.1.
Proof.
  rewrite !SetMode_state. unfold applyModes. apply fold_left_app.
Qed.


Lemma instructionsSent_app (w1 w2 : World) :
  instructionsSent (w1 ++ w2) = instructionsSent w1 ++ instructionsSent w2.
Proof. unfold instructionsSent. apply omap_app. Qed.





(** X16.  Each of the six display methods (DisplayOn/Off, CursorOn/Off,
    BlinkOn/Off) changes its flag first and then writes one instruction, the
    display byte of the new state; it returns what that write returns.  The
    flag reads as set by the method whether or not the write succeeded, and
    the entry and function modes are untouched. *)
Theorem display_methods_set_flag_then_send
    (hd : ADAFRUIT_CHARLCD OpaqueConnection) (w : World) :
  Forall (λ row : (ADAFRUIT_CHARLCD OpaqueConnection
                   → M (ADAFRUIT_CHARLCD OpaqueConnection * error)) * Flag * bool,
            let res := row.1.1 hd w in
            flagEnabled row.1.2 res.2.1 = row.2
            ∧ res.1 = w ++ [EvWrite false (Z.lor lcdSetDisplayMode (dMode res.2.1))]
            ∧ res.2.2 = answer (conn hd) w
            ∧ eMode res.2.1 = eMode hd ∧ fMode res.2.1 = fMode hd)
         displayMethodTable.
Proof.
  unfold displayMethodTable.
  repeat apply Forall_cons_2; try apply Forall_nil_2; cbn [fst snd];
    (split; [| by repeat split]);
    first [ by apply flag_set_reads_true | by apply flag_cleared_reads_false ].
Qed.

Lemma lor_0x80_range (x : Z) : 0 ≤ x < 256 → 0x80 ≤ Z.lor 0x80 x ≤ 0xFF.
Proof. apply (byte_cases (λ x, 0x80 ≤ Z.lor 0x80 x ≤ 0xFF)). by vm_compute. Qed.

(** X17.  [SetCursor] uses the low eight bits of the column only: columns
    that differ by a multiple of 256 give the same call.  For a row that is
    not negative the one instruction it writes has bit 7 set, i.e. it is a
    set-DDRAM-address command, whatever the column and the row table. *)
Theorem SetCursor_column_wraps
    (hd : ADAFRUIT_CHARLCD OpaqueConnection) (col row k : Z) (w : World) :
  SetCursor hd (col + 256 * k) row w = SetCursor hd col row w
  ∧ (0 ≤ row →
       ∃ v, (SetCursor hd col row w).1 = w ++ [EvWrite false v] ∧ 0x80 ≤ v ≤ 0xFF).
Proof.
  split.
  - unfold SetCursor, byteOfInt, wrap8.
    by rewrite Z.mul_comm, Z_mod_plus_full.
  - intros Hrow. unfold SetCursor, lcdRowOffset.
    destruct (rowAt_in_range (rowAddr hd) (if 3 <? row then 3 else row))
      as [base ->]; [destruct (Z.ltb_spec 3 row); lia |].
    eexists. split; [reflexivity |].
    apply lor_0x80_range. unfold add8, wrap8. by apply Z.mod_pos_bound.
Qed.

(** Column 259 is column 3; on row 1 of a 16-column display that is address
    0x43, sent as 0xC3. *)
Lemma SetCursor_column_wraps_witness :
  SetCursor (sampleLCD sampleLinkOk) 259 1 [] = SetCursor (sampleLCD sampleLinkOk) 3 1 []
  ∧ ∃ v, (SetCursor (sampleLCD sampleLinkOk) 3 1 []).1 = [EvWrite false v]
         ∧ 0x80 ≤ v ≤ 0xFF.
Proof.
  destruct (SetCursor_column_wraps (sampleLCD sampleLinkOk) 3 1 1 []) as [Hwrap Hop].
  split; [exact Hwrap | apply Hop; lia].
Defined.

End ControllerFurtherProperties.

(* ===================================================================== *)
(** ** Further properties of the I2C connection                           *)
(* ===================================================================== *)

Section I2CConnectionFurtherProperties.

Import CharLCD.
Local Open Scope lcd_scope.

Lemma lor_is_byte (a b : Z) : 0 ≤ a < 256 → 0 ≤ b < 256 → 0 ≤ Z.lor a b < 256.
Proof.
  intros Ha Hb.
  assert (∀ x n, 0 ≤ x < 256 → 8 ≤ n → Z.testbit x n = false) as Hhigh.
  { intros x n Hx Hn. rewrite <- (Z.mod_small x (2 ^ 8)) by lia.
    apply Z.mod_pow2_bits_high. lia. }
  assert (Z.lor a b mod 2 ^ 8 = Z.lor a b) as <-.
  { apply Z.bits_inj'. intros n Hn.
    rewrite Z.testbit_mod_pow2 by lia.
    destruct (Z.ltb_spec n 8); [reflexivity |].
    by rewrite Z.lor_spec, !Hhigh. }
  by apply Z.mod_pos_bound.
Qed.

Lemma shl8_is_byte (x n : Z) : 0 ≤ shl8 x n < 256.
Proof. unfold shl8, wrap8. by apply Z.mod_pos_bound. Qed.

Lemma sixFrames_bytes (pm : I2CPinMap) (rs : bool) (data : byte) :
  Forall (λ b, 0 ≤ b < 256) (sixFrames pm rs data).
Proof.
  assert (0 ≤ instructionHigh pm data < 256) as Hhi.
  { unfold instructionHigh. cbv zeta.
    repeat (apply lor_is_byte; [| apply shl8_is_byte]). done. }
  assert (0 ≤ instructionLow pm data < 256) as Hlo.
  { unfold instructionLow. cbv zeta.
    repeat (apply lor_is_byte; [| apply shl8_is_byte]). done. }
  assert (∀ x, 0 ≤ x < 256 → 0 ≤ withRS pm rs x < 256) as Hrs.
  { intros x Hx. unfold withRS. destruct rs; [| assumption].
    apply lor_is_byte; [assumption | apply shl8_is_byte]. }
  unfold sixFrames, strobe. cbn [app].
  repeat apply Forall_cons_2; try apply Forall_nil_2;
    repeat first [ apply lor_is_byte | apply shl8_is_byte | by apply Hrs ].
Qed.

Lemma forEach_pulse_prefix (conn : I2CConnection) (bs : list byte) (w : World) :
  ∃ k, (k ≤ length bs)%nat
       ∧ busWrites (forEach bs (pulseStep conn) (Sleep writeDelay ;;; ret None) w).1
         = busWrites w ++ ((λ b, (Addr conn, 0x13, b)) <$> take k bs).
Proof.
  revert w. induction bs as [|b rest IH]; intros w.
  - exists 0%nat. split; [done |]. cbn. by rewrite busWrites_app.
  - cbn [forEach]. unfold pulseStep at 1, WriteByteToReg, call, Sleep, bind, ret.
    destruct (writeByteToRegResult _ _ _ _ _) as [e|].
    + exists 1%nat. split; [simpl; lia |]. cbn [fst take fmap list_fmap].
      rewrite !busWrites_app. cbn. by rewrite app_nil_r.
    + destruct (IH ((w ++ [EvSleep pulseDelay])
                      ++ [EvWriteByteToReg (Addr conn) 0x13 b])) as (k & Hk & Hlog).
      exists (S k). split; [simpl; lia |].
      unfold bind, Sleep, ret in Hlog. rewrite Hlog.
      rewrite !busWrites_app. cbn. by rewrite app_nil_r, <- app_assoc.
Qed.

(** X18.  On any bus and for any pin map, flag and data, the register writes
    of one [Write] are the first [k] of its six frames for some [k]: each
    goes to register 0x13 of the address of the connection, and each value
    is a byte. *)
Theorem I2CConnection_Write_only_output_register
    (conn : I2CConnection) (rs : bool) (data : byte) (w : World) :
  Forall (λ b, 0 ≤ b < 256) (sixFrames (PinMap conn) rs data)
  ∧ ∃ k, (k ≤ 6)%nat
         ∧ busWrites (I2CConnection_Write conn rs data w).1
           = busWrites w
             ++ ((λ b, (Addr conn, 0x13, b)) <$> take k (sixFrames (PinMap conn) rs data)).
Proof.
  split; [apply sixFrames_bytes |].
  rewrite Write_flat.
  destruct (forEach_pulse_prefix conn (sixFrames (PinMap conn) rs data) w)
    as (k & Hk & Hlog).
  exists k. split; [exact Hk | exact Hlog].
Qed.

Lemma byte_is_sum_of_bits (d : Z) :
  0 ≤ d < 256 →
  16 * (Z.b2z (Z.testbit d 4) + 2 * Z.b2z (Z.testbit d 5)
        + 4 * Z.b2z (Z.testbit d 6) + 8 * Z.b2z (Z.testbit d 7))
  + (Z.b2z (Z.testbit d 0) + 2 * Z.b2z (Z.testbit d 1)
     + 4 * Z.b2z (Z.testbit d 2) + 8 * Z.b2z (Z.testbit d 3)) = d.
Proof.
  apply (byte_cases (λ d,
    16 * (Z.b2z (Z.testbit d 4) + 2 * Z.b2z (Z.testbit d 5)
          + 4 * Z.b2z (Z.testbit d 6) + 8 * Z.b2z (Z.testbit d 7))
    + (Z.b2z (Z.testbit d 0) + 2 * Z.b2z (Z.testbit d 1)
       + 4 * Z.b2z (Z.testbit d 2) + 8 * Z.b2z (Z.testbit d 3)) = d)).
  by vm_compute.
Qed.

Lemma decodeNibble_carried (pm : I2CPinMap) (rs b0 b1 b2 b3 : bool) (frame : byte) :
  frameCarries pm rs b0 b1 b2 b3 frame →
  decodeNibble pm frame = Z.b2z b0 + 2 * Z.b2z b1 + 4 * Z.b2z b2 + 8 * Z.b2z b3.
Proof.
  intros (H0 & H1 & H2 & H3 & _). unfold decodeNibble, lineBit.
  by rewrite H0, H1, H2, H3.
Qed.

Lemma decodeNibble_enable_high (pm : I2CPinMap) (frame : byte) :
  wfPinMap pm →
  decodeNibble pm (Z.lor frame (shl8 0x01 (EN pm))) = decodeNibble pm frame.
Proof.
  intros [Hrange Hdup].
  rewrite !Forall_cons in Hrange.
  rewrite !NoDup_cons, !not_elem_of_cons in Hdup. destruct_and!.
  unfold decodeNibble, lineBit.
  rewrite !enable_high_bits by lia.
  repeat match goal with
         | |- context [?a =? ?b] => destruct (Z.eqb_spec a b); try congruence
         end.
  by rewrite !orb_false_r.
Qed.

Lemma nibble_sum_range (b0 b1 b2 b3 : bool) :
  0 ≤ Z.b2z b0 + 2 * Z.b2z b1 + 4 * Z.b2z b2 + 8 * Z.b2z b3 < 16.
Proof. destruct b0, b1, b2, b3; simpl; lia. Qed.

Lemma nibbles_of_sum (d h l : Z) :
  16 * h + l = d → 0 ≤ l < 16 → h = d / 16 ∧ l = d mod 16.
Proof. intros Hsum Hl. Z.div_mod_to_equations. lia. Qed.

Lemma same_nibbles_same_byte (a b : Z) :
  a / 16 = b / 16 → a mod 16 = b mod 16 → a = b.
Proof.
  intros Hq Hr. rewrite (Z_div_mod_eq_full a 16), (Z_div_mod_eq_full b 16).
  congruence.
Qed.

Lemma sixFrames_decode (pm : I2CPinMap) (rs : bool) (d : byte) :
  wfPinMap pm → 0 ≤ d < 256 →
  map (decodeNibble pm) (sixFrames pm rs d)
  = [d / 16; d / 16; d / 16; d mod 16; d mod 16; d mod 16].
Proof.
  intros Hwf Hd. unfold sixFrames, strobe. cbn [app map].
  rewrite !decodeNibble_enable_high by assumption.
  rewrite (decodeNibble_carried _ _ _ _ _ _ _ (instructionHigh_carries pm rs d Hwf)).
  rewrite (decodeNibble_carried _ _ _ _ _ _ _ (instructionLow_carries pm rs d Hwf)).
  destruct (nibbles_of_sum d _ _ (byte_is_sum_of_bits d Hd)
              (nibble_sum_range _ _ _ _)) as [-> ->].
  reflexivity.
Qed.

(** X19.  Nothing is lost in the frames: on a pin map whose six lines sit on
    different bits, the nibbles read off the data lines of the six frames of
    a byte are its high nibble three times and its low nibble three times
    (the frames with the enable bit OR'd in carry the same nibble).  So two
    different bytes never give the same six frames. *)
Theorem frames_decode_to_data (pm : I2CPinMap) (rs : bool) (data : byte) :
  wfPinMap pm → 0 ≤ data < 256 →
  map (decodeNibble pm) (sixFrames pm rs data)
    = [data / 16; data / 16; data / 16; data mod 16; data mod 16; data mod 16]
  ∧ ∀ data', 0 ≤ data' < 256 →
             sixFrames pm rs data' = sixFrames pm rs data → data' = data.
Proof.
  intros Hwf Hd. split; [by apply sixFrames_decode |].
  intros d' Hd' Heq.
  pose proof (sixFrames_decode pm rs d' Hwf Hd') as H1.
  rewrite Heq, (sixFrames_decode pm rs data Hwf Hd) in H1.
  injection H1 as Hq _ _ Hr _ _. symmetry. by apply same_nibbles_same_byte.
Qed.

Lemma frames_decode_to_data_witness :
  map (decodeNibble samplePinMap) (sixFrames samplePinMap true 0x41) = [4; 4; 4; 1; 1; 1].
Proof.
  destruct (frames_decode_to_data samplePinMap true 0x41) as [Hdec _].
  - split; [repeat constructor; simpl; lia |].
    apply (bool_decide_unpack _). by vm_compute.
  - lia.
  - exact Hdec.
Defined.

(** One [Write] on a bus that accepts every register write. *)
Lemma Write_on_accepting_bus (conn : I2CConnection) (rs : bool) (data : byte) (w : World) :
  (∀ h a r v, writeByteToRegResult (I2C conn) h a r v = None) →
  I2CConnection_Write conn rs data w =
    (w ++ pulseLog (Addr conn) (sixFrames (PinMap conn) rs data) ++ [EvSleep writeDelay],
     None).
Proof.
  intros Hbus. rewrite Write_flat.
  rewrite forEach_pulse_ok by (by apply allWritesOk_of_never_failing).
  unfold bind, Sleep, ret. by rewrite <- app_assoc.
Qed.

(** X20.  A controller on an I2C connection whose bus accepts every write:
    [SetMode] returns [nil] and costs eighteen register writes, the six
    frames of the display byte, of the function byte and of the entry byte of
    the new state, in this order, all with RS clear. *)
Theorem SetMode_over_I2C (modes : list (ModeSetter I2CConnection))
    (hd : ADAFRUIT_CHARLCD I2CConnection) (w : World) :
  let hd' := applyModes modes hd in
  let c := conn hd' in
  (∀ h a r v, writeByteToRegResult (I2C c) h a r v = None) →
  ∃ w', SetMode modes hd w = (w', (hd', None))
        ∧ busWrites w' =
            busWrites w
            ++ ((λ b, (Addr c, 0x13, b)) <$>
                  (sixFrames (PinMap c) false (Z.lor lcdSetDisplayMode (dMode hd'))
                   ++ sixFrames (PinMap c) false (Z.lor lcdSetFunctionMode (fMode hd'))
                   ++ sixFrames (PinMap c) false (Z.lor lcdSetEntryMode (eMode hd')))).
Proof.
  intros hd' c Hbus. eexists. split.
  - unfold SetMode. fold hd'.
    unfold setDisplayMode, setFunctionMode, setEntryMode, WriteInstruction.
    cbn [forEach Write I2CConnection_Connection]. fold c. unfold bind, ret.
    rewrite !(Write_on_accepting_bus c) by assumption. reflexivity.
  - rewrite !busWrites_app, !busWrites_pulseLog, !fmap_app.
    change (busWrites [EvSleep writeDelay]) with (@nil (byte * byte * byte)).
    by rewrite !app_nil_r, <- !app_assoc.
Qed.

Lemma SetMode_over_I2C_witness :
  ∃ w', SetMode [CursorOn]
          {| conn := sampleConn sampleBusOk; eMode := 0x02; dMode := 0x04;
             fMode := 0x08; rowAddr := RowAddress16Col |} []
        = (w', ({| conn := sampleConn sampleBusOk; eMode := 0x02; dMode := 0x06;
                   fMode := 0x08; rowAddr := RowAddress16Col |}, None))
        ∧ length (busWrites w') = 18%nat.
Proof.
  destruct (SetMode_over_I2C [CursorOn]
              {| conn := sampleConn sampleBusOk; eMode := 0x02; dMode := 0x04;
                 fMode := 0x08; rowAddr := RowAddress16Col |} [])
    as (w' & Hrun & Hbus); [done |].
  exists w'. split; [exact Hrun |]. by rewrite Hbus.
Defined.

Lemma NewI2CConnection_setup (i2c : I2CBus) (addr : byte) (pinMap : I2CPinMap) (w : World) :
  NewI2CConnection i2c addr pinMap w =
    (w ++ setupLog addr,
     {| I2C := i2c; Addr := addr; PinMap := pinMap; conn_Backlight := false |}).
Proof.
  unfold NewI2CConnection, WriteByteToReg, call, bind, ret, setupLog. simpl.
  by rewrite <- !app_assoc.
Qed.

(** X21.  [NewI2C] on a bus that refuses every register write: the five
    set-up writes are issued and their errors dropped, then the first frame
    of the first init instruction (0x33) is refused and its error is what
    [NewI2C] returns, without a controller. *)
Theorem NewI2C_on_refusing_bus (i2c : I2CBus) (addr : byte) (pinMap : I2CPinMap)
    (ra : RowAddress) (modes : list (ModeSetter I2CConnection))
    (e : IOError) (w : World) :
  (∀ h a r v, writeByteToRegResult i2c h a r v = Some e) →
  NewI2C i2c addr pinMap ra modes w =
    (w ++ setupLog addr
       ++ [EvSleep pulseDelay; EvWriteByteToReg addr 0x13 (instructionHigh pinMap 0x33)],
     inr e).
Proof.
  intros Hbus. unfold NewI2C. unfold bind at 1.
  rewrite NewI2CConnection_setup.
  unfold New, ADAFRUIT_CHARLCD_lcdInit, WriteInstruction.
  cbn [Write I2CConnection_Connection conn]. unfold bind at 1 2.
  rewrite Write_flat. unfold sixFrames, strobe. cbn [app forEach withRS].
  unfold pulseStep at 1, WriteByteToReg, call, Sleep, bind, ret.
  cbn [I2C Addr PinMap]. rewrite Hbus.
  by rewrite <- !app_assoc.
Qed.

Lemma NewI2C_on_refusing_bus_witness :
  NewI2C sampleBusDown 0x20 samplePinMap RowAddress16Col [] [] =
    (setupLog 0x20 ++ [EvSleep pulseDelay; EvWriteByteToReg 0x20 0x13 0x06],
     inr (IOErr "no ack")).
Proof.
  apply (NewI2C_on_refusing_bus sampleBusDown 0x20 samplePinMap RowAddress16Col []
           (IOErr "no ack") []).
  reflexivity.
Defined.

(** X22.  What the connection sends depends on the bus, the address and the
    lines RS, EN, D4..D7 of the pin map only: the RW line, the backlight
    line, the backlight polarity and the backlight field of the connection
    change neither [Write] nor [BacklightOn] nor [BacklightOff]. *)
Theorem connection_ignores_backlight_settings
    (c1 c2 : I2CConnection) (rs : bool) (data : byte) (w : World) :
  I2C c1 = I2C c2 → Addr c1 = Addr c2 →
  RS (PinMap c1) = RS (PinMap c2) → EN (PinMap c1) = EN (PinMap c2) →
  D4 (PinMap c1) = D4 (PinMap c2) → D5 (PinMap c1) = D5 (PinMap c2) →
  D6 (PinMap c1) = D6 (PinMap c2) → D7 (PinMap c1) = D7 (PinMap c2) →
  I2CConnection_Write c1 rs data w = I2CConnection_Write c2 rs data w
  ∧ I2CConnection_BacklightOn c1 w = I2CConnection_BacklightOn c2 w
  ∧ I2CConnection_BacklightOff c1 w = I2CConnection_BacklightOff c2 w.
Proof.
  destruct c1 as [i1 a1 [rs1 rw1 en1 d41 d51 d61 d71 bl1 pol1] b1].
  destruct c2 as [i2 a2 [rs2 rw2 en2 d42 d52 d62 d72 bl2 pol2] b2].
  cbn [I2C Addr PinMap RS EN D4 D5 D6 D7].
  intros -> -> -> -> -> -> -> ->. by repeat split.
Qed.

(** Active-low backlight on other lines: the same traffic as the sample
    connection. *)
Lemma connection_ignores_backlight_settings_witness :
  I2CConnection_BacklightOn
    {| I2C := sampleBusOk; Addr := 0x20;
       PinMap := {| RS := 7; RW := 0; EN := 5; D4 := 1; D5 := 2; D6 := 3; D7 := 4;
                    Backlight := 6; BLPolarity := Negative |};
       conn_Backlight := true |} []
  = I2CConnection_BacklightOn (sampleConn sampleBusOk) [].
Proof.
  eapply (connection_ignores_backlight_settings _ (sampleConn sampleBusOk) true 0 []);
    reflexivity.
Defined.

Lemma sixFrames_RS (pm : I2CPinMap) (rs : bool) (data : byte) :
  wfPinMap pm → Forall (λ b, Z.testbit b (RS pm) = rs) (sixFrames pm rs data).
Proof.
  intros Hwf.
  destruct (instructionHigh_carries pm rs data Hwf) as (_ & _ & _ & _ & Hhi & _).
  destruct (instructionLow_carries pm rs data Hwf) as (_ & _ & _ & _ & Hlo & _).
  destruct Hwf as [Hrange Hdup].
  rewrite !Forall_cons in Hrange.
  rewrite !NoDup_cons, !not_elem_of_cons in Hdup. destruct_and!.
  unfold sixFrames, strobe. cbn [app].
  repeat apply Forall_cons_2; try apply Forall_nil_2; try assumption;
    rewrite enable_high_bits by lia;
    (destruct (Z.eqb_spec (RS pm) (EN pm)); [congruence |]);
    by rewrite orb_false_r.
Qed.

(** X23.  A controller on an I2C connection with a pin map whose six lines
    sit on different bits, on any bus: every register write of [WriteChar]
    has the RS bit set and every register write of [WriteInstruction] has it
    clear; either call writes the first [k] of the six frames of its byte
    for some [k]. *)
Theorem WriteChar_sets_RS_WriteInstruction_clears_it
    (hd : ADAFRUIT_CHARLCD I2CConnection) (value : byte) (w : World) :
  let c := conn hd in
  wfPinMap (PinMap c) →
  (∃ k, busWrites (WriteChar hd value w).1
          = busWrites w
            ++ ((λ b, (Addr c, 0x13, b)) <$> take k (sixFrames (PinMap c) true value)))
  ∧ Forall (λ b, Z.testbit b (RS (PinMap c)) = true) (sixFrames (PinMap c) true value)
  ∧ (∃ k, busWrites (WriteInstruction hd value w).1
            = busWrites w
              ++ ((λ b, (Addr c, 0x13, b)) <$> take k (sixFrames (PinMap c) false value)))
  ∧ Forall (λ b, Z.testbit b (RS (PinMap c)) = false) (sixFrames (PinMap c) false value).
Proof.
  intros c Hwf. unfold WriteChar, WriteInstruction.
  cbn [Write I2CConnection_Connection]. fold c. rewrite !Write_flat.
  destruct (forEach_pulse_prefix c (sixFrames (PinMap c) true value) w)
    as (k1 & _ & Hchar).
  destruct (forEach_pulse_prefix c (sixFrames (PinMap c) false value) w)
    as (k0 & _ & Hins).
  split; [by exists k1 |]. split; [by apply sixFrames_RS |].
  split; [by exists k0 | by apply sixFrames_RS].
Qed.

(** The letter A (0x41) on the sample connection: RS, bit 7, is set in all
    six bytes. *)
Lemma WriteChar_sets_RS_WriteInstruction_clears_it_witness :
  Forall (λ b, Z.testbit b 7 = true) (sixFrames samplePinMap true 0x41)
  ∧ Forall (λ b, Z.testbit b 7 = false) (sixFrames samplePinMap false 0x41).
Proof.
  destruct (WriteChar_sets_RS_WriteInstruction_clears_it
              {| conn := sampleConn sampleBusOk; eMode := 0; dMode := 0; fMode := 0;
                 rowAddr := RowAddress16Col |} 0x41 [])
    as (_ & Hchar & _ & Hins).
  - split; [repeat constructor; simpl; lia |].
    apply (bool_decide_unpack _). by vm_compute.
  - split; [exact Hchar | exact Hins].
Defined.

End I2CConnectionFurtherProperties.
